(** * Mandelbrot set generator: escape-time evaluator, colour mapper and
      raster driver of [FractalPattern.cpp], embedded over binary64 floats.

    [double] is Rocq's primitive [float] (IEEE 754 binary64, round to nearest
    even), [int] and [unsigned char] are [Z] with the ranges written out, the
    pixel buffer [std::vector<unsigned char>] is a [list Z] updated by index,
    and the loops are structural recursions on the number of remaining
    iterations, which their bounds fix in advance.  The two library
    functions the program calls, [std::abs] on complex numbers and
    [stbi_write_png], are parameters of the model; what a property needs of
    [std::abs] is a hypothesis of its theorem.

    The first part holds the definitions; the second the properties of the
    loops, the colour mapper and the raster; the third a small theory of
    binary64 rounding, built on [SpecFloat], that carries the properties
    quantified over a whole region of the plane; the last further
    properties of the three functions: the orbit and the cap, the points
    that escape at once and those that never do, the conjugate point, the
    colours under the cap of the program, and what [main] prints, stores
    and hands to the encoder. *)

From Stdlib Require Import ZArith Lia Bool List Floats String.
From Stdlib Require Uint63.
From stdpp Require Import base list.

Open Scope Z_scope.

(** ** Conversions between the arithmetic types *)

(** [(double)n] for an [int n]: exact, since every 32-bit integer is a
    binary64 value. *)
Definition int_to_double (n : Z) : float :=
  if n <? 0 then (- of_uint63 (Uint63.of_Z (- n)))%float
  else of_uint63 (Uint63.of_Z n).

(** Truncation toward zero of a binary64 value, read off its mantissa and
    exponent.  NaN and the infinities have no integer part; they are sent
    to 0. *)
Definition double_trunc (x : float) : Z :=
  match Prim2SF x with
  | S754_finite s m e =>
      let a := if 0 <=? e then Z.shiftl (Zpos m) e
               else Z.shiftr (Zpos m) (- e) in
      if s then - a else a
  | _ => 0
  end.

Definition uchar := Z.

(** [(unsigned char)x] for a [double x]: the fractional part is discarded
    and the low eight bits of the integer kept.  The language leaves the
    conversion undefined once the truncated value exceeds 255; keeping the
    low byte is what the conversion through a 32-bit register does. *)
Definition double_to_uchar (x : float) : uchar :=
  double_trunc x mod 256.

(** ** [std::complex<double>] *)

Record complex := Complex { re : float; im : float }.

Definition cadd (a b : complex) : complex :=
  Complex (re a + re b)%float (im a + im b)%float.

(** The four products and the two sums are rounded one by one: no fused
    multiply-add, and no recovery when both parts come out NaN. *)
Definition cmul (a b : complex) : complex :=
  Complex (re a * re b - im a * im b)%float
          (re a * im b + im a * re b)%float.

(** ** [std::abs] on a complex number

    [std::abs(z)] is library code: the modulus of [z], which the C++
    library computes with the C library's [hypot].  The language fixes
    neither its algorithm nor its rounding, so the model takes the function
    as a parameter, [std_abs], and every property states what it needs of
    it.  The assumptions used are these; each holds of the exact modulus,
    and of any [hypot] that is exact on the real axis and never returns
    less than 2 where a coordinate alone is at least 2. *)

(** [|0| < 2]: [hypot(0, 0)] is [0]. *)
Definition abs_origin (std_abs : complex -> float) : Prop :=
  (std_abs (Complex 0 0) <? 2)%float = true.

(** [|2 + 0i| < 2] fails: [hypot(2, 0)] is [2]. *)
Definition abs_at_two (std_abs : complex -> float) : Prop :=
  (std_abs (Complex 2 0) <? 2)%float = false.

(** A point with a coordinate that is not below 2 in magnitude (at least
    2, infinite, or NaN) is not below 2 in magnitude. *)
Definition abs_outside (std_abs : complex -> float) : Prop :=
  forall z,
    (abs (re z) <? 2)%float = false \/ (abs (im z) <? 2)%float = false ->
    (std_abs z <? 2)%float = false.

(** The same with a margin: a coordinate that is not below 2.25.  This is
    all that is asked of the accuracy of [std::abs] away from the axes: an
    error of a tenth would not break it. *)
Definition abs_far (std_abs : complex -> float) : Prop :=
  forall z,
    (abs (re z) <? 2.25)%float = false
    \/ (abs (im z) <? 2.25)%float = false ->
    (std_abs z <? 2)%float = false.

(** A point with both coordinates at most 0.25 in magnitude is below 2 in
    magnitude. *)
Definition abs_inside (std_abs : complex -> float) : Prop :=
  forall z,
    (abs (re z) <=? 0.25)%float = true ->
    (abs (im z) <=? 0.25)%float = true ->
    (std_abs z <? 2)%float = true.

(** The magnitude depends on the imaginary part through its absolute
    value: [hypot(x, y)] is [hypot(x, -y)]. *)
Definition abs_even (std_abs : complex -> float) : Prop :=
  forall z z',
    re z' = re z -> abs (im z') = abs (im z) -> std_abs z' = std_abs z.

(** The modulus by the formula [sqrt(re^2 + im^2)], every operation
    rounded to binary64.  It is one function that meets the assumptions
    above, and serves as their instance; it is not the library's function,
    from which it differs by one unit in the last place next to 2 and
    wherever a square overflows or underflows. *)
Definition formula_abs (z : complex) : float :=
  PrimFloat.sqrt (re z * re z + im z * im z)%float.

Section Model.
Variable std_abs : complex -> float.

(** ** [mandelbrot] *)

(** The [while] loop of [mandelbrot].  [fuel] counts the iterations that may
    still run; the loop stops by itself once [iterations] reaches
    [maxIterations]. *)
Fixpoint mandelbrot_loop (fuel : nat) (c z : complex)
    (iterations maxIterations : Z) : Z :=
  match fuel with
  | O => iterations
  | S fuel' =>
      if (std_abs z <? 2)%float && (iterations <? maxIterations)
      then mandelbrot_loop fuel' c (cadd (cmul z z) c)
                           (iterations + 1) maxIterations
      else iterations
  end.

Definition mandelbrot (real imag : float) (maxIterations : Z) : Z :=
  let c := Complex real imag in
  let z := Complex 0 0 in
  mandelbrot_loop (Z.to_nat maxIterations) c z 0 maxIterations.

(** ** [getColor] *)

Definition red_formula (t : float) : float :=
  (9 * (1 - t) * t * t * t * 255 * 1.5)%float.

Definition green_formula (t : float) : float :=
  (15 * (1 - t) * (1 - t) * t * t * 255 * 1.5)%float.

Definition blue_formula (t : float) : float :=
  (8.5 * (1 - t) * (1 - t) * (1 - t) * t * 255 * 1.5)%float.

(** The three output references [r], [g], [b] are returned as a triple. *)
Definition getColor (iterations maxIterations : Z) : uchar * uchar * uchar :=
  let t := (int_to_double iterations / int_to_double maxIterations)%float in
  if iterations =? maxIterations then (0, 0, 0)
  else
    let r := double_to_uchar (red_formula t) in
    let g := double_to_uchar (green_formula t) in
    let b := double_to_uchar (blue_formula t) in
    let r := Z.min r 255 in
    let g := Z.min g 255 in
    let b := Z.min b 255 in
    (r, g, b).

(** ** [main] *)

Definition width : Z := 800.
Definition height : Z := 800.
Definition maxIterations : Z := 1000.

Definition minReal : float := (-2.0)%float.
Definition maxReal : float := 1.0%float.
Definition minImag : float := (-1.5)%float.
Definition maxImag : float := 1.5%float.

(** [std::vector<unsigned char> image(n)]: [n] zero bytes. *)
Definition vector_new (n : Z) : list uchar := replicate (Z.to_nat n) 0.

(** [image[i] = v].  An index outside the vector is an error ([None]). *)
Definition vector_set (image : list uchar) (i : Z) (v : uchar)
  : option (list uchar) :=
  if (0 <=? i) && (i <? Z.of_nat (length image))
  then Some (<[Z.to_nat i := v]> image)
  else None.

(** [for (int i = start; ...; ++i) body], run for [n] rounds. *)
Fixpoint for_loop {St : Type} (n : nat) (i : Z)
    (body : Z -> St -> option St) (s : St) : option St :=
  match n with
  | O => Some s
  | S n' =>
      match body i s with
      | Some s' => for_loop n' (i + 1) body s'
      | None => None
      end
  end.

(** [for (int i = 0; i < bound; ++i) body]. *)
Definition for_upto {St : Type} (bound : Z) (body : Z -> St -> option St)
  : St -> option St :=
  for_loop (Z.to_nat bound) 0 body.

Definition pixel_index (x y : Z) : Z := (y * width + x) * 3.

(** The colour computed for the pixel in column [x], row [y]. *)
Definition pixel_color (x y : Z) : uchar * uchar * uchar :=
  let real := (minReal + (int_to_double x / int_to_double width)
                         * (maxReal - minReal))%float in
  let imag := (minImag + (int_to_double y / int_to_double height)
                         * (maxImag - minImag))%float in
  let iterations := mandelbrot real imag maxIterations in
  getColor iterations maxIterations.

(** The body of the inner loop. *)
Definition pixel_body (x y : Z) (image : list uchar) : option (list uchar) :=
  let '(r, g, b) := pixel_color x y in
  let index := pixel_index x y in
  image ← vector_set image index r;
  image ← vector_set image (index + 1) g;
  vector_set image (index + 2) b.

Definition column_body (x : Z) : list uchar -> option (list uchar) :=
  for_upto height (pixel_body x).

Definition raster : list uchar -> option (list uchar) :=
  for_upto width column_body.

(** What the program prints. *)
Inductive event :=
| Cout (line : string)
| CoutSize (size : Z)
| Cerr (line : string).

Record outcome := Outcome {
  exit_code : Z;
  image_buffer : list uchar;
  console : list event
}.

(** The signature of [stbi_write_png]: file name, width, height, channel
    count, pixel data, row stride; zero on failure. *)
Definition png_writer := string -> Z -> Z -> Z -> list uchar -> Z -> Z.

Definition main (stbi_write_png : png_writer) : option outcome :=
  let image := vector_new (width * height * 3) in
  let log := [Cout "Generating Mandelbrot..."] in
  image ← raster image;
  let log := log ++ [Cout "Mandelbrot generation complete."] in
  let log := log ++ [CoutSize (Z.of_nat (length image))] in
  if stbi_write_png "mandelbrot_fractal_pattern.png"%string width height 3
                    image (width * 3) =? 0
  then Some (Outcome 1 image (log ++ [Cerr "Failed to save the image!"]))
  else Some (Outcome 0 image (log ++ [Cout "Image saved successfully!"])).

(** ** The colour mapper as the specification words it *)

Definition clamp (lo hi v : Z) : Z := Z.max lo (Z.min hi v).

(** Truncate the formula value, then clamp it into [0, 255]. *)
Definition getColor_spec (iterations maxIterations : Z)
  : uchar * uchar * uchar :=
  let t := (int_to_double iterations / int_to_double maxIterations)%float in
  (clamp 0 255 (double_trunc (red_formula t)),
   clamp 0 255 (double_trunc (green_formula t)),
   clamp 0 255 (double_trunc (blue_formula t))).

(** ** The escape-time evaluator as the specification words it *)

(** "While [|z| < 2.0] and [count < maxIterations]: set [z = z*z + c];
    increment [count].  Return [count]."  [escape_run c m z count result]
    reads: started in the state [(z, count)], that procedure returns
    [result]. *)
Inductive escape_run (c : complex) (m : Z) : complex -> Z -> Z -> Prop :=
| escape_continue z count result :
    (std_abs z <? 2)%float = true ->
    count < m ->
    escape_run c m (cadd (cmul z z) c) (count + 1) result ->
    escape_run c m z count result
| escape_stop z count :
    ~ ((std_abs z <? 2)%float = true /\ count < m) ->
    escape_run c m z count count.

(** Initialise [z = 0 + 0i], [c = real + imag*i], [count = 0]. *)
Definition reference_escape_time (real imag : float) (m result : Z) : Prop :=
  escape_run (Complex real imag) m (Complex 0 0) 0 result.

(** ** What the raster loop has established *)

Definition buffer_size : Z := width * height * 3.

(** The three bytes of pixel [(x, y)] hold its colour. *)
Definition pixel_stored (image : list uchar) (x y : Z) : Prop :=
  let '(r, g, b) := pixel_color x y in
  image !! Z.to_nat (pixel_index x y) = Some r
  /\ image !! Z.to_nat (pixel_index x y + 1) = Some g
  /\ image !! Z.to_nat (pixel_index x y + 2) = Some b.

(** The state on entry to the inner loop body at column [x], row [y]: the
    buffer has its full length, and the columns before [x] and the rows of
    column [x] before [y] are stored. *)
Definition raster_inv (x y : Z) (image : list uchar) : Prop :=
  Z.of_nat (length image) = buffer_size
  /\ forall x' y', 0 <= x' < width -> 0 <= y' < height ->
       x' < x \/ (x' = x /\ y' < y) ->
       pixel_stored image x' y'.

End Model.

(** ** Binary64 rounding, on integers

    The properties on the escape of whole regions of the plane quantify over
    every [double].  They are settled by bounding each floating-point
    operation through its specification ([SpecFloat], which the primitive
    operations obey).  A magnitude is an integer in units of [2^-1074], the
    smallest positive binary64 value. *)

(** [m / 2^k] rounded to the nearest integer, ties to even. *)
Definition rne (m k : Z) : Z :=
  let q := m / 2 ^ k in
  let r := m mod 2 ^ k in
  if 2 * r <? 2 ^ k then q
  else if 2 * r =? 2 ^ k then (if Z.even q then q else q + 1)
  else q + 1.

(** The exponent of the last mantissa bit of a binary64 value whose first
    bit has exponent [E - 1]. *)
Definition fexp64 (E : Z) : Z := Z.max (E - 53) (-1074).

(** The magnitude standing for the infinities: [2^1024]. *)
Definition INF : Z := 2 ^ 2098.

(** The magnitude standing for NaN, above everything. *)
Definition TOP : Z := 2 ^ 2099.

(** [v * 2^c] rounded to the mantissa grid of its binade, before the
    overflow test. *)
Definition rnd_raw (c v : Z) : Z :=
  let et := fexp64 (Zdigits2 v + c) in rne v (et - c) * 2 ^ (et + 1074).

(** The binary64 value nearest to [v * 2^c], in units of [2^-1074].  This
    is the arithmetic reading; [rnd] below computes it with shifts and
    masks. *)
Definition rnd_spec (c v : Z) : Z :=
  if v <=? 0 then 0
  else
    let et := fexp64 (Zdigits2 v + c) in
    Z.min (rne v (et - c) * 2 ^ (et + 1074)) INF.

(** Round to nearest even by shifting and masking. *)
Definition rne_bits (m k : Z) : Z :=
  let q := Z.shiftr m k in
  let r := Z.land m (Z.ones k) in
  let h := Z.shiftl 1 k in
  if 2 * r <? h then q
  else if 2 * r =? h then (if Z.even q then q else q + 1)
  else q + 1.

Definition INF_bits : Z := Z.shiftl 1 2098.

Definition rnd (c v : Z) : Z :=
  if v <=? 0 then 0
  else
    let et := fexp64 (Zdigits2 v + c) in
    Z.min (Z.shiftl (rne_bits v (et - c)) (et + 1074)) INF_bits.

(** Rounded product, sum and difference of two magnitudes. *)
Definition rmul (a b : Z) : Z := rnd (-2148) (a * b).
Definition radd (a b : Z) : Z := rnd (-1074) (a + b).
Definition rsub (a b : Z) : Z := rnd (-1074) (a - b).

(** What [k] steps of [shr_1] have moved out of the mantissa [m]: the
    round bit weighs [2^k] and the sticky part [t] is below it, both in
    half units. *)
Definition shr_inv (m : Z) (k : Z) (rec : shr_record) : Prop :=
  exists t, 0 <= t < 2 ^ k /\ 0 <= shr_m rec
    /\ 2 * m = shr_m rec * 2 ^ (k + 1)
               + (if shr_r rec then 2 ^ k else 0) + t
    /\ (shr_s rec = false <-> t = 0).

(** Magnitude of a binary64 value in units of [2^-1074]. *)
Definition M (x : spec_float) : Z :=
  match x with
  | S754_zero _ => 0
  | S754_infinity _ => INF
  | S754_nan => TOP
  | S754_finite _ m e => Zpos m * 2 ^ (e + 1074)
  end.

(** Sign bit. *)
Definition sb (x : spec_float) : bool :=
  match x with
  | S754_zero s | S754_infinity s | S754_finite s _ _ => s
  | S754_nan => false
  end.

(** [x] is NaN, or has sign [s] and magnitude at least [a]. *)
Definition LB (s : bool) (x : spec_float) (a : Z) : Prop :=
  x = S754_nan \/ (sb x = s /\ a <= M x).

(** [x] is a number of sign [s] and magnitude at most [b]. *)
Definition UB (s : bool) (x : spec_float) (b : Z) : Prop :=
  x <> S754_nan /\ sb x = s /\ M x <= b.

Definition LBf (s : bool) (x : float) (a : Z) : Prop := LB s (Prim2SF x) a.
Definition UBf (s : bool) (x : float) (b : Z) : Prop := UB s (Prim2SF x) b.

(** The magnitudes of [1.0] and [4.0]. *)
Definition one : Z := 2 ^ 1074.
Definition four : Z := 2 ^ 1076.

(** ** The first three steps of the orbit of [c = cr + ci*i] *)

(** [z1 = 0*0 + c], as the loop computes it. *)
Definition first_re (cr : float) : float := (0 + cr)%float.
Definition first_im (ci : float) : float := (0 + ci)%float.

(** [z2 = z1*z1 + c]. *)
Definition second_re (cr ci : float) : float :=
  (first_re cr * first_re cr - first_im ci * first_im ci + cr)%float.
Definition second_im (cr ci : float) : float :=
  (first_re cr * first_im ci + first_im ci * first_re cr + ci)%float.

(** [z3 = z2*z2 + c]. *)
Definition third_re (cr ci : float) : float :=
  (second_re cr ci * second_re cr ci - second_im cr ci * second_im cr ci
   + cr)%float.
Definition third_im (cr ci : float) : float :=
  (second_re cr ci * second_im cr ci + second_im cr ci * second_re cr ci
   + ci)%float.

(** Bounds on the parts of [z2] for a point [c] with [re c >= r] and
    [a <= |im c| <= b]: the computation replayed on the corner of the
    box, every operation being monotone. *)
Definition x2_lb (r b : Z) : Z :=
  radd (rsub (rmul (radd 0 r) (radd 0 r)) (rmul b b)) r.
Definition y2_lb (r a : Z) : Z :=
  radd (radd (rmul (radd 0 r) a) (rmul a (radd 0 r))) a.

(** [|im z2|] from above, for [|re c| <= r] and [|im c| <= b]. *)
Definition y2_ub (r b : Z) : Z := radd (radd (rmul r b) (rmul b r)) b.

(** The parts of [z3] from below, for [re z2 >= x], [|im z2| >= y] (resp.
    [<= y]) and [|im c| >= a] (resp. [re c >= r]). *)
Definition y3_lb (x y a : Z) : Z := radd (radd (rmul x y) (rmul y x)) a.
Definition x3_lb (x y r : Z) : Z := radd (rsub (rmul x x) (rmul y y)) r.

(** The magnitude of [2.25], and the lines that cut the half-plane
    [re c > 1] in four: [|im c| = 0.75], [|im c| = 0.3125] and
    [re c = 1.5]. *)
Definition far : Z := 9 * 2 ^ 1072.
Definition im_far : Z := 3 * 2 ^ 1072.
Definition im_near : Z := 5 * 2 ^ 1070.
Definition re_split : Z := 3 * 2 ^ 1073.

(** ** The orbit, the pixel coordinates and checks over a range *)

(** [orbit c k] is the value of [z] after [k] rounds of [z = z*z + c]
    started at [z = 0]. *)
Definition orbit (c : complex) (k : nat) : complex :=
  Nat.iter k (fun z => cadd (cmul z z) c) (Complex 0 0).

(** The coordinates [main] computes for column [x] and row [y]. *)
Definition pixel_real (x : Z) : float :=
  (minReal + (int_to_double x / int_to_double width)
             * (maxReal - minReal))%float.

Definition pixel_imag (y : Z) : float :=
  (minImag + (int_to_double y / int_to_double height)
             * (maxImag - minImag))%float.

(** [p] holds at [0], ..., [n - 1]. *)
Fixpoint all_below (n : nat) (p : Z -> bool) : bool :=
  match n with
  | O => true
  | S n' => all_below n' p && p (Z.of_nat n')
  end.

Definition color_eqb (u v : uchar * uchar * uchar) : bool :=
  let '(r, g, b) := u in
  let '(r', g', b') := v in
  (r =? r') && (g =? g') && (b =? b').

Definition is_byte (v : Z) : Prop := 0 <= v <= 255.

(** The magnitude of [2.0]. *)
Definition two : Z := 2 ^ 1075.

(** ** Complex conjugates in binary64 *)

(** [Y] is [X] with the sign flipped.  Two zeros mirror each other
    whatever their signs: a sum that cancels is [+0] on both sides. *)
Definition mirror (X Y : spec_float) : Prop :=
  match X, Y with
  | S754_zero _, S754_zero _ => True
  | S754_infinity s, S754_infinity s' => s' = negb s
  | S754_nan, S754_nan => True
  | S754_finite s m e, S754_finite s' m' e' => s' = negb s /\ m' = m /\ e' = e
  | _, _ => False
  end.

(** [z'] is the conjugate of [z]: the same real part, the mirrored
    imaginary part. *)
Definition conjugates (z z' : complex) : Prop :=
  re z' = re z /\ mirror (Prim2SF (im z)) (Prim2SF (im z')).

(** ** Bounds from above, of either sign *)

(** [x] is a number of magnitude at most [b]. *)
Definition within (x : spec_float) (b : Z) : Prop :=
  x <> S754_nan /\ M x <= b.

Definition withinf (x : float) (b : Z) : Prop := within (Prim2SF x) b.

(** The magnitudes of [0.125] and [0.25]. *)
Definition eighth : Z := 2 ^ 1071.
Definition quarter : Z := 2 ^ 1072.

(** * Properties *)

(** ** The escape-time loop *)

Section EscapeLoop.
Variable std_abs : complex -> float.
Variable c : complex.
Variable m : Z.

Lemma mandelbrot_loop_unfold fuel z count :
  mandelbrot_loop std_abs (S fuel) c z count m =
  if (std_abs z <? 2)%float && (count <? m)
  then mandelbrot_loop std_abs fuel c (cadd (cmul z z) c) (count + 1) m
  else count.
Proof. reflexivity. Qed.

(** The counter never decreases and never passes the cap. *)
Lemma mandelbrot_loop_range fuel : forall z count,
  count <= m ->
  count <= mandelbrot_loop std_abs fuel c z count m <= m.
Proof.
  induction fuel as [|fuel IH]; intros z count Hle; [simpl; lia|].
  rewrite mandelbrot_loop_unfold.
  destruct (std_abs z <? 2)%float; simpl; [|lia].
  destruct (count <? m) eqn:Hlt; [|lia].
  apply Z.ltb_lt in Hlt.
  specialize (IH (cadd (cmul z z) c) (count + 1)). lia.
Qed.

(** With at least [m - count] rounds of fuel the model follows the
    [while] loop to its end: the fuel never cuts a run short. *)
Lemma mandelbrot_loop_run fuel : forall z count,
  m - count <= Z.of_nat fuel ->
  escape_run std_abs c m z count (mandelbrot_loop std_abs fuel c z count m).
Proof.
  induction fuel as [|fuel IH]; intros z count Hfuel.
  - simpl. apply escape_stop. lia.
  - rewrite mandelbrot_loop_unfold.
    destruct (std_abs z <? 2)%float eqn:Habs; simpl.
    + destruct (count <? m) eqn:Hlt.
      * apply Z.ltb_lt in Hlt.
        apply escape_continue; [assumption|assumption|].
        apply IH. lia.
      * apply Z.ltb_ge in Hlt. apply escape_stop. lia.
    + apply escape_stop. intros [Hcontra _]. congruence.
Qed.

(** The procedure of the specification has one result. *)
Lemma escape_run_deterministic z count r1 r2 :
  escape_run std_abs c m z count r1 ->
  escape_run std_abs c m z count r2 ->
  r1 = r2.
Proof.
  intros H1; revert r2.
  induction H1 as [z count r1 Habs Hlt _ IH | z count Hstop]; intros r2 H2.
  - inversion H2; subst; [auto | tauto].
  - inversion H2; subst; [tauto | reflexivity].
Qed.

Lemma mandelbrot_loop_fuel_irrelevant fuel fuel' z count :
  m - count <= Z.of_nat fuel ->
  m - count <= Z.of_nat fuel' ->
  mandelbrot_loop std_abs fuel c z count m
  = mandelbrot_loop std_abs fuel' c z count m.
Proof.
  intros H1 H2.
  eapply escape_run_deterministic; apply mandelbrot_loop_run; assumption.
Qed.
End EscapeLoop.

Definition origin : complex := Complex 0 0.

(** At [c = 0] the orbit stays at [0], so every round of the loop runs. *)
Lemma mandelbrot_loop_origin std_abs m fuel :
  abs_origin std_abs ->
  forall count,
  Z.of_nat fuel = m - count ->
  mandelbrot_loop std_abs fuel origin origin count m = m.
Proof.
  intros Horigin.
  induction fuel as [|fuel IH]; intros count Hfuel; [simpl; lia|].
  rewrite mandelbrot_loop_unfold.
  replace (std_abs origin <? 2)%float with true
    by (symmetry; exact Horigin).
  replace (count <? m) with true by (symmetry; apply Z.ltb_lt; lia).
  simpl andb. cbv iota.
  replace (cadd (cmul origin origin) origin) with origin by reflexivity.
  apply IH. lia.
Qed.

(** The formula [sqrt(re^2 + im^2)] puts [0] below 2. *)
Lemma formula_abs_origin : abs_origin formula_abs.
Proof. reflexivity. Qed.

(** C3: for every binary64 [real] and [imag] (finite or not) and every
    positive [maxIterations], [mandelbrot real imag maxIterations] is the
    result of the reference escape-time procedure (start from [z = 0],
    [count = 0]; while [|z| < 2.0] and [count < maxIterations] set
    [z := z*z + c] and increment [count]; return [count]), that procedure
    has no other result, and the value lies in [[0, maxIterations]].
    This holds whatever function computes the magnitude [|z|], the same
    on both sides: nothing is assumed of [std::abs]. *)
Theorem mandelbrot_is_reference_escape_time
    (std_abs : complex -> float) (real imag : float) (m : Z) :
  0 < m ->
  reference_escape_time std_abs real imag m (mandelbrot std_abs real imag m)
  /\ (forall n, reference_escape_time std_abs real imag m n ->
                n = mandelbrot std_abs real imag m)
  /\ 0 <= mandelbrot std_abs real imag m <= m.
Proof.
  intros Hm.
  assert (Hrun : reference_escape_time std_abs real imag m
                   (mandelbrot std_abs real imag m)).
  { unfold reference_escape_time, mandelbrot.
    apply mandelbrot_loop_run. lia. }
  split; [exact Hrun|]. split.
  - intros n Hn. eapply escape_run_deterministic; eassumption.
  - unfold mandelbrot. apply mandelbrot_loop_range. lia.
Qed.

Lemma mandelbrot_is_reference_escape_time_witness :
  0 < 7
  /\ reference_escape_time formula_abs (-1) 0.25 7 7
  /\ 0 <= mandelbrot formula_abs (-1) 0.25 7 <= 7.
Proof.
  destruct (mandelbrot_is_reference_escape_time formula_abs (-1) 0.25 7)
    as (Hrun & _ & Hrange);
    [lia|].
  split; [lia|]. split; [exact Hrun | exact Hrange].
Defined.

(** C5: for every positive [maxIterations],
    [mandelbrot(0.0, 0.0, maxIterations) = maxIterations]: with [c = 0] the
    orbit of [z := z*z + c] stays at [0], whose magnitude is below 2, so
    the loop only stops at the cap.  Of [std::abs] this uses that the
    magnitude of [0] is below 2. *)
Theorem mandelbrot_origin_never_escapes
    (std_abs : complex -> float) (m : Z) :
  abs_origin std_abs ->
  0 < m -> mandelbrot std_abs 0 0 m = m.
Proof.
  intros Horigin Hm. unfold mandelbrot.
  apply (mandelbrot_loop_origin std_abs m _ Horigin). lia.
Qed.

Lemma mandelbrot_origin_never_escapes_witness :
  abs_origin formula_abs
  /\ 0 < 1000 /\ mandelbrot formula_abs 0 0 1000 = 1000.
Proof.
  split; [exact formula_abs_origin|]. split; [lia|].
  apply mandelbrot_origin_never_escapes; [exact formula_abs_origin|lia].
Defined.

(** At [c = 2] the first step lands on [z = 2], of magnitude exactly 2, and
    the strict test [|z| < 2.0] fails. *)
Lemma mandelbrot_two (std_abs : complex -> float) (m : Z) :
  abs_origin std_abs -> abs_at_two std_abs ->
  1 <= m -> mandelbrot std_abs 2 0 m = 1.
Proof.
  intros Horigin Htwo Hm. unfold mandelbrot.
  destruct (Z.to_nat m) as [|fuel] eqn:Hfuel; [lia|].
  rewrite mandelbrot_loop_unfold.
  replace (0 <? m) with true by (symmetry; apply Z.ltb_lt; lia).
  replace (std_abs (Complex 0 0) <? 2)%float with true
    by (symmetry; exact Horigin).
  simpl andb. cbv iota.
  destruct fuel as [|fuel]; [reflexivity|].
  rewrite mandelbrot_loop_unfold.
  change (cadd (cmul (Complex 0 0) (Complex 0 0)) (Complex 2 0))
    with (Complex 2 0).
  replace (std_abs (Complex 2 0) <? 2)%float with false
    by (symmetry; exact Htwo).
  reflexivity.
Qed.

(** ** The colour mapper *)

(** C4: for every positive [maxIterations],
    [getColor(maxIterations, maxIterations)] is the black triple
    [(0, 0, 0)]. *)
Theorem getColor_cap_is_black (m : Z) :
  0 < m -> getColor m m = (0, 0, 0).
Proof.
  intros _. unfold getColor. rewrite Z.eqb_refl. reflexivity.
Qed.

Lemma getColor_cap_is_black_witness :
  0 < 1000 /\ getColor 1000 1000 = (0, 0, 0).
Proof.
  split; [lia | apply getColor_cap_is_black; lia].
Defined.

Lemma double_to_uchar_range x : 0 <= double_to_uchar x <= 255.
Proof.
  unfold double_to_uchar.
  pose proof (Z.mod_pos_bound (double_trunc x) 256). lia.
Qed.

(** The [std::min] against 255 comes after the cast, when the value already
    is a byte. *)
Lemma min_after_cast x : Z.min (double_to_uchar x) 255 = double_to_uchar x.
Proof. pose proof (double_to_uchar_range x). lia. Qed.

(** C9: for [0 <= iterations < maxIterations] the [std::min] applied after
    the cast to [unsigned char] changes no channel: each channel is the
    formula value truncated and reduced modulo 256.  At [t = 0.75] the red
    formula is worth 363 once truncated and is stored as 107. *)
Theorem getColor_channels_wrap (iterations m : Z) :
  0 <= iterations < m ->
  let t := (int_to_double iterations / int_to_double m)%float in
  getColor iterations m =
    (double_trunc (red_formula t) mod 256,
     double_trunc (green_formula t) mod 256,
     double_trunc (blue_formula t) mod 256)
  /\ Z.min (double_to_uchar (red_formula t)) 255
       = double_to_uchar (red_formula t)
  /\ Z.min (double_to_uchar (green_formula t)) 255
       = double_to_uchar (green_formula t)
  /\ Z.min (double_to_uchar (blue_formula t)) 255
       = double_to_uchar (blue_formula t)
  /\ double_trunc (red_formula 0.75) = 363
  /\ fst (fst (getColor 750 1000)) = 107.
Proof.
  intros Hrange t.
  split; [|repeat (split; [apply min_after_cast|])].
  - unfold getColor. fold t.
    replace (iterations =? m) with false by (symmetry; apply Z.eqb_neq; lia).
    cbv zeta. rewrite !min_after_cast. reflexivity.
  - split; vm_compute; reflexivity.
Qed.

Lemma getColor_channels_wrap_witness :
  0 <= 750 < 1000 /\ getColor 750 1000 = (107, 201, 38).
Proof.
  split; [lia|].
  destruct (getColor_channels_wrap 750 1000) as [Hcolor _]; [lia|].
  rewrite Hcolor. vm_compute. reflexivity.
Defined.

(** C1: the specification clamps the truncated formula value into
    [[0, 255]]; the code casts to a byte first, so a value above 255 wraps
    instead of saturating.  At [iterations = 750], [maxIterations = 1000]
    (t = 0.75) the red formula is 363.07...: the code stores 107 where the
    clamp of the specification gives 255. *)
Theorem getColor_clamp_comes_too_late :
  getColor 750 1000 = (107, 201, 38)
  /\ getColor_spec 750 1000 = (255, 201, 38)
  /\ double_trunc (red_formula (int_to_double 750 / int_to_double 1000)) = 363.
Proof.
  split; [|split]; vm_compute; reflexivity.
Qed.

(** ** The pixel buffer *)

Lemma vector_new_length n : 0 <= n -> Z.of_nat (length (vector_new n)) = n.
Proof.
  intros Hn. unfold vector_new. rewrite length_replicate. lia.
Qed.

Lemma vector_set_in_bounds (image : list uchar) i v :
  0 <= i < Z.of_nat (length image) ->
  vector_set image i v = Some (<[Z.to_nat i := v]> image).
Proof.
  intros Hi. unfold vector_set.
  replace (0 <=? i) with true by (symmetry; apply Z.leb_le; lia).
  replace (i <? Z.of_nat (length image)) with true
    by (symmetry; apply Z.ltb_lt; lia).
  reflexivity.
Qed.

Lemma vector_set_inv (image image' : list uchar) i v :
  vector_set image i v = Some image' ->
  0 <= i < Z.of_nat (length image) /\ image' = <[Z.to_nat i := v]> image.
Proof.
  unfold vector_set.
  destruct (0 <=? i) eqn:Hlo; simpl; [|discriminate].
  destruct (i <? Z.of_nat (length image)) eqn:Hhi; [|discriminate].
  intros [= <-]. apply Z.leb_le in Hlo. apply Z.ltb_lt in Hhi. auto.
Qed.

Lemma vector_set_length (image image' : list uchar) i v :
  vector_set image i v = Some image' -> length image' = length image.
Proof.
  intros H. apply vector_set_inv in H as [_ ->]. apply length_insert.
Qed.

(** ** Counting loops *)

Section ForLoop.
Context {St : Type}.
Variable body : Z -> St -> option St.

(** An invariant [P i s] ("about to run round [i] in state [s]") that
    every round re-establishes and that makes the round succeed holds
    when the loop ends, and the loop does end normally. *)
Lemma for_loop_invariant (P : Z -> St -> Prop) n : forall i s,
  P i s ->
  (forall j t, i <= j < i + Z.of_nat n -> P j t ->
               exists t', body j t = Some t' /\ P (j + 1) t') ->
  exists s', for_loop n i body s = Some s' /\ P (i + Z.of_nat n) s'.
Proof.
  induction n as [|n IH]; intros i s HP Hstep.
  - exists s. split; [reflexivity|]. replace (i + Z.of_nat 0) with i by lia.
    exact HP.
  - destruct (Hstep i s) as (t & Hbody & HP'); [lia|exact HP|].
    destruct (IH (i + 1) t HP') as (s' & Hloop & HP'').
    { intros j u Hj. apply Hstep. lia. }
    exists s'. split.
    + simpl. rewrite Hbody. exact Hloop.
    + replace (i + Z.of_nat (S n)) with (i + 1 + Z.of_nat n) by lia.
      exact HP''.
Qed.

(** A property of the state that no round changes is not changed by the
    loop. *)
Lemma for_loop_preserves (Q : St -> Prop) n : forall i s s',
  (forall j t t', body j t = Some t' -> Q t -> Q t') ->
  for_loop n i body s = Some s' -> Q s -> Q s'.
Proof.
  induction n as [|n IH]; intros i s s' Hstep; simpl.
  - intros [= <-] HQ. exact HQ.
  - destruct (body i s) as [t|] eqn:Hbody; [|discriminate].
    intros Hloop HQ. eapply IH; eauto.
Qed.
End ForLoop.

(** ** The raster loop *)

Section Raster.
Variable std_abs : complex -> float.

Lemma pixel_index_bounds x y :
  0 <= x < width -> 0 <= y < height ->
  0 <= pixel_index x y /\ pixel_index x y + 2 < buffer_size.
Proof.
  unfold pixel_index, buffer_size, width, height. lia.
Qed.

(** Two pixels do not share a byte. *)
Lemma pixel_index_apart x y x' y' k k' :
  0 <= x < width -> 0 <= x' < width -> 0 <= y -> 0 <= y' ->
  0 <= k <= 2 -> 0 <= k' <= 2 ->
  (x', y') <> (x, y) ->
  Z.to_nat (pixel_index x' y' + k') <> Z.to_nat (pixel_index x y + k).
Proof.
  unfold pixel_index, width. intros Hx Hx' Hy Hy' Hk Hk' Hne Heq.
  apply Hne. f_equal; lia.
Qed.

Lemma pixel_body_length x y (image image' : list uchar) :
  pixel_body std_abs x y image = Some image' -> length image' = length image.
Proof.
  unfold pixel_body. destruct (pixel_color std_abs x y) as [[r g] b].
  destruct (vector_set image (pixel_index x y) r) as [i1|] eqn:H1;
    simpl; [|discriminate].
  destruct (vector_set i1 (pixel_index x y + 1) g) as [i2|] eqn:H2;
    simpl; [|discriminate].
  intros H3.
  apply vector_set_length in H1, H2, H3. congruence.
Qed.

(** One round of the inner loop: the three stores are in bounds, the pixel
    is stored, and no other byte changes. *)
Lemma pixel_body_spec x y (image : list uchar) :
  0 <= x < width -> 0 <= y < height ->
  Z.of_nat (length image) = buffer_size ->
  exists image',
    pixel_body std_abs x y image = Some image'
    /\ pixel_stored std_abs image' x y
    /\ forall j : nat,
         j <> Z.to_nat (pixel_index x y) ->
         j <> Z.to_nat (pixel_index x y + 1) ->
         j <> Z.to_nat (pixel_index x y + 2) ->
         image' !! j = image !! j.
Proof.
  intros Hx Hy Hlen.
  destruct (pixel_index_bounds x y Hx Hy) as [Hlo Hhi].
  unfold pixel_body, pixel_stored.
  destruct (pixel_color std_abs x y) as [[r g] b].
  set (k := pixel_index x y) in *.
  rewrite vector_set_in_bounds by lia. simpl.
  rewrite vector_set_in_bounds by (rewrite length_insert; lia). simpl.
  rewrite vector_set_in_bounds by (rewrite !length_insert; lia).
  eexists. split; [reflexivity|]. split; [split; [|split]|].
  - rewrite list_lookup_insert_ne by lia.
    rewrite list_lookup_insert_ne by lia.
    apply list_lookup_insert_eq. lia.
  - rewrite list_lookup_insert_ne by lia.
    apply list_lookup_insert_eq. rewrite length_insert. lia.
  - apply list_lookup_insert_eq. rewrite !length_insert. lia.
  - intros j H0 H1 H2.
    rewrite !list_lookup_insert_ne by congruence. reflexivity.
Qed.

Lemma pixel_stored_frame (image image' : list uchar) x y :
  image' !! Z.to_nat (pixel_index x y) = image !! Z.to_nat (pixel_index x y) ->
  image' !! Z.to_nat (pixel_index x y + 1)
    = image !! Z.to_nat (pixel_index x y + 1) ->
  image' !! Z.to_nat (pixel_index x y + 2)
    = image !! Z.to_nat (pixel_index x y + 2) ->
  pixel_stored std_abs image x y -> pixel_stored std_abs image' x y.
Proof.
  unfold pixel_stored. destruct (pixel_color std_abs x y) as [[r g] b].
  intros -> -> ->. auto.
Qed.

(** A round of the inner loop moves the invariant one row down. *)
Lemma pixel_body_step x y (image : list uchar) :
  0 <= x < width -> 0 <= y < height ->
  raster_inv std_abs x y image ->
  exists image', pixel_body std_abs x y image = Some image'
                 /\ raster_inv std_abs x (y + 1) image'.
Proof.
  intros Hx Hy [Hlen Hdone].
  destruct (pixel_body_spec x y image Hx Hy Hlen)
    as (image' & Hbody & Hnew & Hframe).
  exists image'. split; [exact Hbody|]. split.
  - rewrite (pixel_body_length _ _ _ _ Hbody). exact Hlen.
  - intros x' y' Hx' Hy' Hbefore.
    destruct (decide ((x', y') = (x, y))) as [[= -> ->]|Hne]; [exact Hnew|].
    apply (pixel_stored_frame image).
    + replace (pixel_index x' y') with (pixel_index x' y' + 0) by lia.
      apply Hframe.
      * replace (pixel_index x y) with (pixel_index x y + 0) by lia.
        apply pixel_index_apart; auto; lia.
      * apply pixel_index_apart; auto; lia.
      * apply pixel_index_apart; auto; lia.
    + apply Hframe.
      * replace (pixel_index x y) with (pixel_index x y + 0) by lia.
        apply pixel_index_apart; auto; lia.
      * apply pixel_index_apart; auto; lia.
      * apply pixel_index_apart; auto; lia.
    + apply Hframe.
      * replace (pixel_index x y) with (pixel_index x y + 0) by lia.
        apply pixel_index_apart; auto; lia.
      * apply pixel_index_apart; auto; lia.
      * apply pixel_index_apart; auto; lia.
    + apply Hdone; auto.
      destruct Hbefore as [Hlt|[-> Hlt]]; [left; exact Hlt|].
      right. split; [reflexivity|].
      assert (y' <> y) by congruence. lia.
Qed.

(** The inner loop stores a whole column. *)
Lemma column_body_step x (image : list uchar) :
  0 <= x < width ->
  raster_inv std_abs x 0 image ->
  exists image', column_body std_abs x image = Some image'
                 /\ raster_inv std_abs (x + 1) 0 image'.
Proof.
  intros Hx Hinv. unfold column_body, for_upto.
  destruct (for_loop_invariant (pixel_body std_abs x) (raster_inv std_abs x)
              (Z.to_nat height) 0 image Hinv)
    as (image' & Hloop & [Hlen Hdone]).
  { intros y t Hy. apply pixel_body_step; [exact Hx|].
    unfold height in *. lia. }
  exists image'. split; [exact Hloop|]. split; [exact Hlen|].
  intros x' y' Hx' Hy' Hbefore. apply Hdone; auto.
  unfold height in *. lia.
Qed.

(** The raster loop, started on a buffer of the full length, ends normally
    with every pixel stored. *)
Lemma raster_spec (image : list uchar) :
  Z.of_nat (length image) = buffer_size ->
  exists image', raster std_abs image = Some image'
                 /\ raster_inv std_abs width 0 image'.
Proof.
  intros Hlen. unfold raster, for_upto.
  destruct (for_loop_invariant (column_body std_abs)
              (fun x => raster_inv std_abs x 0) (Z.to_nat width) 0 image)
    as (image' & Hloop & Hinv).
  - split; [exact Hlen|]. intros x' y' Hx' Hy' [Hlt|[-> Hlt]]; lia.
  - intros x t Hx. apply column_body_step. unfold width in *. lia.
  - exists image'. split; [exact Hloop|].
    replace width with (0 + Z.of_nat (Z.to_nat width)) at 1
      by (unfold width; lia).
    exact Hinv.
Qed.

Lemma raster_length (image image' : list uchar) :
  raster std_abs image = Some image' -> length image' = length image.
Proof.
  unfold raster, for_upto. intros Hloop.
  apply (for_loop_preserves (column_body std_abs)
           (fun t => length t = length image) _ _ _ _) in Hloop;
    [exact Hloop| |reflexivity].
  intros x t t' Hcol Ht. unfold column_body, for_upto in Hcol.
  apply (for_loop_preserves (pixel_body std_abs x)
           (fun u => length u = length image) _ _ _ _) in Hcol;
    [exact Hcol| |exact Ht].
  intros y u u' Hbody Hu. rewrite (pixel_body_length _ _ _ _ Hbody).
  exact Hu.
Qed.

Lemma buffer_size_value : buffer_size = 1920000.
Proof. reflexivity. Qed.

(** [main] always reaches the encoder, with the buffer the raster loop
    left. *)
Lemma main_runs (w : png_writer) :
  exists image,
    raster std_abs (vector_new (width * height * 3)) = Some image
    /\ raster_inv std_abs width 0 image
    /\ exists log,
         main std_abs w = Some (Outcome
           (if w "mandelbrot_fractal_pattern.png"%string
                 width height 3 image (width * 3) =? 0 then 1 else 0)
           image log).
Proof.
  destruct (raster_spec (vector_new (width * height * 3)))
    as (image & Hraster & Hinv).
  { apply vector_new_length. unfold buffer_size, width, height. lia. }
  exists image. split; [exact Hraster|]. split; [exact Hinv|].
  unfold main. rewrite Hraster. simpl.
  destruct (w _ _ _ _ _ _ =? 0); eexists; reflexivity.
Qed.

Lemma pixel_color_constants x y :
  pixel_color std_abs x y =
  getColor (mandelbrot std_abs (-2 + (int_to_double x / 800) * 3)%float
                       (-1.5 + (int_to_double y / 800) * 3)%float 1000) 1000.
Proof. reflexivity. Qed.

(** C2: the raster loop ends normally, and then for every column [x] in
    [[0, 800)] and row [y] in [[0, 800)] the three bytes at offset
    [(y*800 + x)*3] are
    [getColor(mandelbrot(-2.0 + (x/800)*3.0, -1.5 + (y/800)*3.0, 1000), 1000)];
    the buffer of every run of [main], whatever the encoder does, is this
    same buffer. *)
Theorem raster_stores_every_pixel :
  exists image : list uchar,
    raster std_abs (vector_new (800 * 800 * 3)) = Some image
    /\ (forall x y, 0 <= x < 800 -> 0 <= y < 800 ->
          let '(r, g, b) :=
            getColor (mandelbrot std_abs
                        (-2 + (int_to_double x / 800) * 3)%float
                        (-1.5 + (int_to_double y / 800) * 3)%float
                        1000) 1000 in
          image !! Z.to_nat ((y * 800 + x) * 3) = Some r
          /\ image !! Z.to_nat ((y * 800 + x) * 3 + 1) = Some g
          /\ image !! Z.to_nat ((y * 800 + x) * 3 + 2) = Some b)
    /\ (forall (w : png_writer) o,
          main std_abs w = Some o -> image_buffer o = image).
Proof.
  destruct (raster_spec (vector_new (width * height * 3)))
    as (image & Hraster & Hlen & Hdone).
  { apply vector_new_length. unfold buffer_size, width, height. lia. }
  exists image. split; [exact Hraster|]. split.
  - intros x y Hx Hy.
    rewrite <- pixel_color_constants.
    apply (Hdone x y); [exact Hx|exact Hy|]. unfold width. lia.
  - intros w o Hmain.
    destruct (main_runs w) as (image' & Hraster' & _ & log & Hmain').
    assert (image' = image) as -> by congruence.
    rewrite Hmain' in Hmain. injection Hmain as <-. reflexivity.
Qed.

(** C7: the pixel buffer is created with [width*height*3 = 1,920,000]
    bytes, no round of the raster loop and no run of the whole loop changes
    the length, and the buffer handed to the encoder, which is the buffer
    [main] ends with, still has that length. *)
Theorem buffer_length_invariant (w : png_writer) :
  Z.of_nat (length (vector_new (width * height * 3))) = 1920000
  /\ width * height * 3 = 1920000
  /\ (forall x y (image image' : list uchar),
        pixel_body std_abs x y image = Some image' ->
        length image' = length image)
  /\ (forall image image' : list uchar,
        raster std_abs image = Some image' -> length image' = length image)
  /\ exists image log,
       raster std_abs (vector_new (width * height * 3)) = Some image
       /\ Z.of_nat (length image) = 1920000
       /\ main std_abs w = Some (Outcome
             (if w "mandelbrot_fractal_pattern.png"%string
                   width height 3 image (width * 3) =? 0 then 1 else 0)
             image log).
Proof.
  split; [apply vector_new_length; unfold width, height; lia|].
  split; [reflexivity|].
  split; [exact pixel_body_length|].
  split; [exact raster_length|].
  destruct (main_runs w) as (image & Hraster & [Hlen _] & log & Hmain).
  exists image, log. split; [exact Hraster|]. split; [|exact Hmain].
  rewrite Hlen. reflexivity.
Qed.

(** C8: [main] always ends with an exit code, which is 1 when the encoder
    returns 0 (failure) and 0 otherwise. *)
Theorem exit_code_follows_encoder (w : png_writer) :
  exists o,
    main std_abs w = Some o
    /\ exit_code o =
         if w "mandelbrot_fractal_pattern.png"%string 800 800 3
              (image_buffer o) 2400 =? 0
         then 1 else 0.
Proof.
  destruct (main_runs w) as (image & _ & _ & log & Hmain).
  eexists. split; [exact Hmain|]. reflexivity.
Qed.

(** C10: for every [x] and [y] in [[0, 800)] the three indices
    [(y*800 + x)*3], [+1] and [+2] are non-negative and below the buffer
    length 1,920,000 (and fit an [int]); the three stores of the round
    succeed on a buffer of that length, and the whole raster loop runs
    without a store outside the buffer. *)
Theorem raster_indices_in_bounds (x y : Z) :
  0 <= x < 800 -> 0 <= y < 800 ->
  pixel_index x y = (y * 800 + x) * 3
  /\ 0 <= pixel_index x y
  /\ pixel_index x y < 1920000
  /\ pixel_index x y + 1 < 1920000
  /\ pixel_index x y + 2 < 1920000
  /\ pixel_index x y + 2 < 2 ^ 31
  /\ Z.of_nat (length (vector_new (width * height * 3))) = 1920000
  /\ (forall image : list uchar,
        Z.of_nat (length image) = 1920000 ->
        exists image', pixel_body std_abs x y image = Some image')
  /\ exists image,
       raster std_abs (vector_new (width * height * 3)) = Some image.
Proof.
  intros Hx Hy.
  split; [reflexivity|].
  unfold pixel_index at 1 2 3 4 5, width.
  repeat (split; [lia|]).
  split; [apply vector_new_length; unfold width, height; lia|].
  split.
  - intros image Hlen.
    destruct (pixel_body_spec x y image) as (image' & Hbody & _);
      [exact Hx|exact Hy|exact Hlen|].
    exists image'. exact Hbody.
  - destruct (raster_spec (vector_new (width * height * 3)))
      as (image & Hraster & _).
    { apply vector_new_length. unfold buffer_size, width, height. lia. }
    exists image. exact Hraster.
Qed.
End Raster.

Lemma raster_stores_every_pixel_witness :
  exists image : list uchar,
    raster formula_abs (vector_new (800 * 800 * 3)) = Some image
    /\ (0 <= 0 < 800 /\ 0 <= 0 < 800)
    /\ image !! 0%nat = Some 0
    /\ image !! 1%nat = Some 0
    /\ image !! 2%nat = Some 3.
Proof.
  destruct (raster_stores_every_pixel formula_abs)
    as (image & Hraster & Hpixels & _).
  exists image. split; [exact Hraster|]. split; [lia|].
  apply (Hpixels 0 0); lia.
Defined.

Lemma buffer_length_invariant_witness :
  pixel_body formula_abs 0 0 [9; 9; 9; 9] = Some [0; 0; 3; 9]
  /\ length [0; 0; 3; 9] = length [9; 9; 9; 9].
Proof.
  assert (H : pixel_body formula_abs 0 0 [9; 9; 9; 9] = Some [0; 0; 3; 9])
    by (vm_compute; reflexivity).
  split; [exact H|].
  destruct (buffer_length_invariant formula_abs (fun _ _ _ _ _ _ => 1))
    as (_ & _ & Hstep & _).
  exact (Hstep 0 0 _ _ H).
Defined.

Lemma raster_indices_in_bounds_witness :
  (0 <= 799 < 800 /\ 0 <= 799 < 800)
  /\ pixel_index 799 799 = 1919997
  /\ pixel_index 799 799 + 2 < 1920000.
Proof.
  destruct (raster_indices_in_bounds formula_abs 799 799)
    as (Hidx & _ & _ & _ & Hhi & _); [lia|lia|].
  split; [lia|]. split; [exact Hidx | exact Hhi].
Defined.

(** * Binary64 arithmetic and the escape to the right of 1 *)

(** ** Rounding to nearest even on integers *)

Ltac hide_pows :=
  repeat match goal with
  | |- context [Z.pow 2 ?e] =>
      let P := fresh "P" in set (P := Z.pow 2 e) in *; clearbody P
  | H : context [Z.pow 2 ?e] |- _ =>
      let P := fresh "P" in set (P := Z.pow 2 e) in *; clearbody P
  end.

Lemma pow2_pos k : 0 <= k -> 0 < 2 ^ k.
Proof. intros. apply Z.pow_pos_nonneg; lia. Qed.

Lemma rne_bounds m k : 0 <= k -> m / 2 ^ k <= rne m k <= m / 2 ^ k + 1.
Proof.
  intros Hk. unfold rne.
  destruct (2 * (m mod 2 ^ k) <? 2 ^ k); [lia|].
  destruct (2 * (m mod 2 ^ k) =? 2 ^ k); [|lia].
  destruct (Z.even (m / 2 ^ k)); lia.
Qed.

Lemma rne_mono m m' k : 0 <= k -> m <= m' -> rne m k <= rne m' k.
Proof.
  intros Hk Hle.
  pose proof (pow2_pos k Hk) as HP.
  pose proof (Z.div_le_mono m m' (2 ^ k) HP Hle) as Hq.
  pose proof (rne_bounds m k Hk) as Hb.
  pose proof (rne_bounds m' k Hk) as Hb'.
  destruct (Z.eq_dec (m / 2 ^ k) (m' / 2 ^ k)) as [Heq|Hne]; [|lia].
  pose proof (Z.div_mod m (2 ^ k)) as Hm.
  pose proof (Z.div_mod m' (2 ^ k)) as Hm'.
  unfold rne. rewrite <- Heq in *.
  set (q := m / 2 ^ k) in *. set (r := m mod 2 ^ k) in *.
  set (r' := m' mod 2 ^ k) in *. set (P := 2 ^ k) in *.
  assert (r <= r') by lia.
  destruct (Z.ltb_spec (2 * r) P), (Z.ltb_spec (2 * r') P),
    (Z.eqb_spec (2 * r) P), (Z.eqb_spec (2 * r') P),
    (Z.even q); lia.
Qed.

Lemma rne_scale m k j : 0 <= k -> 0 <= j -> rne (m * 2 ^ j) (k + j) = rne m k.
Proof.
  intros Hk Hj. unfold rne.
  pose proof (pow2_pos k Hk) as HP. pose proof (pow2_pos j Hj) as HJ.
  rewrite Z.pow_add_r by lia.
  rewrite Z.div_mul_cancel_r by lia.
  rewrite Z.mul_mod_distr_r by lia.
  set (q := m / 2 ^ k). set (r := m mod 2 ^ k).
  set (P := 2 ^ k) in *. set (J := 2 ^ j) in *.
  destruct (Z.ltb_spec (2 * (r * J)) (P * J)), (Z.ltb_spec (2 * r) P),
    (Z.eqb_spec (2 * (r * J)) (P * J)), (Z.eqb_spec (2 * r) P);
    try reflexivity; exfalso; nia.
Qed.

Lemma rne_exact c k : 0 <= k -> rne (c * 2 ^ k) k = c.
Proof.
  intros Hk. pose proof (pow2_pos k Hk) as HP. unfold rne.
  rewrite Z.div_mul by lia. rewrite Z.mod_mul by lia.
  destruct (Z.ltb_spec (2 * 0) (2 ^ k)); [reflexivity|lia].
Qed.

Lemma rne_le c m k : 0 <= k -> m <= c * 2 ^ k -> rne m k <= c.
Proof.
  intros Hk H. rewrite <- (rne_exact c k Hk). apply rne_mono; assumption.
Qed.

Lemma rne_ge c m k : 0 <= k -> c * 2 ^ k <= m -> c <= rne m k.
Proof.
  intros Hk H. rewrite <- (rne_exact c k Hk). apply rne_mono; assumption.
Qed.

(** ** Digits and the monotonicity of rounding *)

Lemma digits2_pos_spec p :
  2 ^ (Zpos (digits2_pos p) - 1) <= Zpos p < 2 ^ Zpos (digits2_pos p).
Proof.
  induction p as [p IH|p IH|]; simpl digits2_pos.
  - rewrite Pos2Z.inj_succ, (Pos2Z.inj_xI p).
    replace (Z.succ (Zpos (digits2_pos p)) - 1)
      with (Z.succ (Zpos (digits2_pos p) - 1)) by lia.
    rewrite !Z.pow_succ_r by lia. hide_pows. lia.
  - rewrite Pos2Z.inj_succ, (Pos2Z.inj_xO p).
    replace (Z.succ (Zpos (digits2_pos p)) - 1)
      with (Z.succ (Zpos (digits2_pos p) - 1)) by lia.
    rewrite !Z.pow_succ_r by lia. hide_pows. lia.
  - simpl. lia.
Qed.

Lemma Zdigits2_spec v :
  0 < v -> 1 <= Zdigits2 v /\ 2 ^ (Zdigits2 v - 1) <= v < 2 ^ Zdigits2 v.
Proof.
  destruct v as [|p|p]; try lia. intros _. simpl.
  split; [lia | apply digits2_pos_spec].
Qed.

(** The number of digits is fixed by the power-of-two bracket. *)
Lemma Zdigits2_unique v d :
  0 < v -> 2 ^ (d - 1) <= v < 2 ^ d -> Zdigits2 v = d.
Proof.
  intros Hv [Hlo Hhi].
  destruct (Zdigits2_spec v Hv) as (H1 & Hlo' & Hhi').
  assert (Hd : 1 <= d).
  { destruct (Z_lt_le_dec d 1) as [Hlt|]; [|assumption].
    assert (2 ^ d <= 2 ^ 0) by (apply Z.pow_le_mono_r; lia).
    change (2 ^ 0) with 1 in *. lia. }
  destruct (Z_lt_le_dec (Zdigits2 v) d) as [Hlt|Hge].
  - assert (2 ^ Zdigits2 v <= 2 ^ (d - 1)) by (apply Z.pow_le_mono_r; lia).
    lia.
  - destruct (Z_lt_le_dec d (Zdigits2 v)) as [Hlt|Hle]; [|lia].
    assert (2 ^ d <= 2 ^ (Zdigits2 v - 1)) by (apply Z.pow_le_mono_r; lia).
    lia.
Qed.

Lemma Zdigits2_mono v w : 0 < v -> v <= w -> Zdigits2 v <= Zdigits2 w.
Proof.
  intros Hv Hle.
  destruct (Zdigits2_spec v Hv) as (_ & Hlo & _).
  destruct (Zdigits2_spec w) as (_ & _ & Hhi); [lia|].
  destruct (Z_lt_le_dec (Zdigits2 w) (Zdigits2 v)) as [Hlt|]; [|assumption].
  assert (2 ^ Zdigits2 w <= 2 ^ (Zdigits2 v - 1))
    by (apply Z.pow_le_mono_r; lia).
  lia.
Qed.

Lemma Zdigits2_shift v j :
  0 < v -> 0 <= j -> Zdigits2 (v * 2 ^ j) = Zdigits2 v + j.
Proof.
  intros Hv Hj. pose proof (pow2_pos j Hj).
  destruct (Zdigits2_spec v Hv) as (H1 & Hlo & Hhi).
  apply Zdigits2_unique; [nia|].
  replace (Zdigits2 v + j - 1) with (Zdigits2 v - 1 + j) by lia.
  rewrite !Z.pow_add_r by lia. nia.
Qed.

Lemma rnd_spec_nonneg c v : c <= -1074 -> 0 <= rnd_spec c v.
Proof.
  intros Hc. unfold rnd_spec. destruct (Z.leb_spec v 0); [lia|].
  set (et := fexp64 (Zdigits2 v + c)).
  assert (Het : -1074 <= et) by (unfold et, fexp64; lia).
  pose proof (rne_bounds v (et - c) ltac:(lia)).
  pose proof (pow2_pos (et - c) ltac:(lia)).
  pose proof (pow2_pos (et + 1074) ltac:(lia)).
  assert (0 <= v / 2 ^ (et - c)) by (apply Z.div_pos; lia).
  assert (0 < INF) by (apply pow2_pos; lia).
  apply Z.min_glb; [nia|lia].
Qed.

Lemma rnd_spec_le_INF c v : rnd_spec c v <= INF.
Proof.
  unfold rnd_spec. destruct (Z.leb_spec v 0); [|lia].
  assert (0 < INF) by (apply pow2_pos; lia). lia.
Qed.

Section RndMono.
Variable c : Z.
Hypothesis Hc : c <= -1074.

(** With at least 53 digits to start from, the rounded mantissa has its
    leading bit set. *)
Lemma rne_normal v k :
  0 < v -> 0 <= k -> k = Zdigits2 v - 53 -> 2 ^ 52 <= rne v k.
Proof.
  intros Hv Hk ->.
  destruct (Zdigits2_spec v Hv) as (H1 & Hlo & _).
  apply rne_ge; [lia|].
  rewrite <- Z.pow_add_r by lia.
  replace (52 + (Zdigits2 v - 53)) with (Zdigits2 v - 1) by lia.
  exact Hlo.
Qed.

(** The rounded mantissa never passes the top of its binade. *)
Lemma rne_top v et :
  0 < v -> c <= et ->
  rne v (et - c) <= 2 ^ Z.max 0 (Zdigits2 v + c - et).
Proof.
  intros Hv Het.
  destruct (Zdigits2_spec v Hv) as (H1 & _ & Hhi).
  apply rne_le; [lia|].
  rewrite <- Z.pow_add_r by lia.
  assert (2 ^ Zdigits2 v <= 2 ^ (Z.max 0 (Zdigits2 v + c - et) + (et - c)))
    by (apply Z.pow_le_mono_r; lia).
  lia.
Qed.

Lemma raw_mono v1 v2 : 0 < v1 -> v1 <= v2 -> rnd_raw c v1 <= rnd_raw c v2.
Proof.
  intros Hv1 Hle. unfold rnd_raw.
  pose proof (Zdigits2_mono v1 v2 Hv1 Hle) as Hd.
  set (d1 := Zdigits2 v1) in *. set (d2 := Zdigits2 v2) in *.
  set (e1 := fexp64 (d1 + c)). set (e2 := fexp64 (d2 + c)).
  assert (He1 : -1074 <= e1) by (unfold e1, fexp64; lia).
  assert (He12 : e1 <= e2) by (unfold e1, e2, fexp64; lia).
  destruct (Z.eq_dec e1 e2) as [Heq|Hne].
  - rewrite <- Heq.
    apply Z.mul_le_mono_nonneg_r; [apply Z.pow_nonneg; lia|].
    apply rne_mono; lia.
  - assert (Hn2 : e2 = d2 + c - 53 /\ -1074 < d2 + c - 53)
      by (unfold e1, e2, fexp64 in *; lia).
    destruct Hn2 as [He2 Hn2].
    pose proof (rne_normal v2 (e2 - c) ltac:(lia) ltac:(lia) ltac:(lia))
      as Hlo.
    pose proof (rne_top v1 e1 Hv1 ltac:(lia)) as Hhi. fold d1 in Hhi.
    assert (Hmid : 2 ^ Z.max 0 (d1 + c - e1) * 2 ^ (e1 + 1074)
                   <= 2 ^ 52 * 2 ^ (e2 + 1074)).
    { rewrite <- !Z.pow_add_r by lia. apply Z.pow_le_mono_r; [lia|].
      unfold e1, fexp64 in *. lia. }
    pose proof (pow2_pos (e1 + 1074) ltac:(lia)).
    pose proof (pow2_pos (e2 + 1074) ltac:(lia)).
    nia.
Qed.

Lemma rnd_spec_mono v1 v2 : v1 <= v2 -> rnd_spec c v1 <= rnd_spec c v2.
Proof.
  intros Hle. unfold rnd_spec.
  destruct (Z.leb_spec v1 0) as [H1|H1].
  - destruct (Z.leb_spec v2 0) as [H2|H2]; [lia|].
    fold (rnd_spec c v2).
    pose proof (rnd_spec_nonneg c v2 Hc) as Hnn. unfold rnd_spec in Hnn.
    destruct (Z.leb_spec v2 0); [lia|]. exact Hnn.
  - destruct (Z.leb_spec v2 0) as [H2|H2]; [lia|].
    apply Z.min_le_compat_r. apply raw_mono; assumption.
Qed.
End RndMono.

Lemma rne_bits_eq m k : 0 <= k -> rne_bits m k = rne m k.
Proof.
  intros Hk. unfold rne_bits, rne.
  rewrite Z.shiftr_div_pow2, Z.land_ones, Z.shiftl_1_l by lia.
  reflexivity.
Qed.

Lemma INF_bits_eq : INF_bits = INF.
Proof. unfold INF_bits, INF. apply Z.shiftl_1_l. Qed.

Lemma rnd_eq c v : c <= -1074 -> rnd c v = rnd_spec c v.
Proof.
  intros Hc. unfold rnd, rnd_spec.
  destruct (v <=? 0); [reflexivity|].
  assert (-1074 <= fexp64 (Zdigits2 v + c)) by (unfold fexp64; lia).
  rewrite rne_bits_eq, Z.shiftl_mul_pow2, INF_bits_eq by lia.
  reflexivity.
Qed.

Lemma rnd_nonneg c v : c <= -1074 -> 0 <= rnd c v.
Proof. intros Hc. rewrite rnd_eq by assumption. apply rnd_spec_nonneg, Hc. Qed.

Lemma rnd_le_INF c v : c <= -1074 -> rnd c v <= INF.
Proof. intros Hc. rewrite rnd_eq by assumption. apply rnd_spec_le_INF. Qed.

Lemma rnd_mono c v1 v2 : c <= -1074 -> v1 <= v2 -> rnd c v1 <= rnd c v2.
Proof.
  intros Hc Hle. rewrite !rnd_eq by assumption. apply rnd_spec_mono; assumption.
Qed.

Lemma rnd_nonpos c v : v <= 0 -> rnd c v = 0.
Proof.
  intros Hv. unfold rnd. destruct (Z.leb_spec v 0); [reflexivity|lia].
Qed.

(** ** The shift-and-round of [SpecFloat] *)

Lemma iter_pos_nat {T : Type} (f : T -> T) p : forall x : T,
  SpecFloat.iter_pos f p x = Nat.iter (Pos.to_nat p) f x.
Proof.
  induction p as [p IH|p IH|]; intros x; simpl SpecFloat.iter_pos.
  - rewrite !IH, Pos2Nat.inj_xI.
    replace (S (2 * Pos.to_nat p)) with (S (Pos.to_nat p + Pos.to_nat p))
      by lia.
    rewrite Nat.iter_succ_r, Nat.iter_add. reflexivity.
  - rewrite !IH, Pos2Nat.inj_xO.
    replace (2 * Pos.to_nat p)%nat with (Pos.to_nat p + Pos.to_nat p)%nat
      by lia.
    rewrite Nat.iter_add. reflexivity.
  - reflexivity.
Qed.

Lemma shr_1_m rec : 0 <= shr_m rec -> shr_m (shr_1 rec) = shr_m rec / 2.
Proof.
  destruct rec as [m r s]. simpl. intros Hm.
  destruct m as [|[p|p|]|p]; simpl shr_m; try lia.
  - reflexivity.
  - rewrite (Pos2Z.inj_xI p). apply (Z.div_unique _ _ _ 1); lia.
  - rewrite (Pos2Z.inj_xO p). apply (Z.div_unique _ _ _ 0); lia.
  - reflexivity.
Qed.

Lemma shr_iter_m k : forall rec,
  0 <= shr_m rec ->
  shr_m (Nat.iter k shr_1 rec) = shr_m rec / 2 ^ Z.of_nat k.
Proof.
  induction k as [|k IH]; intros rec Hm.
  - simpl. rewrite Z.div_1_r. reflexivity.
  - rewrite Nat.iter_succ_r, IH.
    + rewrite shr_1_m by assumption.
      rewrite Z.div_div by (try apply pow2_pos; lia).
      rewrite Nat2Z.inj_succ, Z.pow_succ_r by lia. reflexivity.
    + rewrite shr_1_m by assumption. apply Z.div_pos; lia.
Qed.

Lemma shr_inv_step m k rec :
  0 <= k -> shr_inv m k rec -> shr_inv m (k + 1) (shr_1 rec).
Proof.
  intros Hk (t & Ht & Hm & Heq & Hs).
  destruct rec as [q r s]. cbn [shr_m shr_r shr_s] in *.
  pose proof (pow2_pos k Hk) as HP.
  unfold shr_inv.
  replace (k + 1 + 1) with (Z.succ (Z.succ k)) by lia.
  replace (k + 1) with (Z.succ k) in * by lia.
  rewrite !Z.pow_succ_r in * by lia.
  set (P := 2 ^ k) in *. clearbody P.
  exists ((if r then P else 0) + t).
  destruct q as [|[p|p|]|p]; try lia; cbn [shr_1 shr_m shr_r shr_s];
    rewrite ?(Pos2Z.inj_xI p), ?(Pos2Z.inj_xO p) in *.
  all: (split; [destruct r; lia|]).
  all: (split; [lia|]).
  all: (split; [destruct r; lia|]).
  all: destruct r, s; cbn [orb]; split; intros; try lia; try discriminate;
    destruct Hs; lia.
Qed.

Lemma shr_inv_iter m k : forall rec,
  shr_inv m 0 rec -> shr_inv m (Z.of_nat k) (Nat.iter k shr_1 rec).
Proof.
  induction k as [|k IH]; intros rec H0; [exact H0|].
  rewrite Nat2Z.inj_succ. simpl Nat.iter.
  replace (Z.succ (Z.of_nat k)) with (Z.of_nat k + 1) by lia.
  apply shr_inv_step; [lia|]. apply IH. exact H0.
Qed.

Lemma shr_inv_rne m k rec :
  0 <= k -> shr_inv m k rec ->
  round_nearest_even (shr_m rec) (loc_of_shr_record rec) = rne m k.
Proof.
  intros Hk (t & Ht & Hq & Heq & Hs).
  destruct rec as [q r s]. cbn [shr_m shr_r shr_s] in *.
  pose proof (pow2_pos k Hk) as HP.
  replace (k + 1) with (Z.succ k) in * by lia.
  rewrite Z.pow_succ_r in Heq by lia.
  set (rem := m - q * 2 ^ k).
  assert (Hrem : 0 <= rem < 2 ^ k) by (unfold rem; destruct r; lia).
  assert (Hdiv : m / 2 ^ k = q).
  { symmetry. apply (Z.div_unique _ _ _ rem); [lia|unfold rem; lia]. }
  assert (Hmod : m mod 2 ^ k = rem).
  { symmetry. apply (Z.mod_unique _ _ q); [lia|unfold rem; lia]. }
  unfold rne. rewrite Hdiv, Hmod.
  destruct (Z.ltb_spec (2 * rem) (2 ^ k)), (Z.eqb_spec (2 * rem) (2 ^ k));
    destruct r, s; cbn [loc_of_shr_record round_nearest_even];
    unfold rem in *; try reflexivity;
    try (exfalso; destruct Hs; lia).
Qed.

Lemma fexp_eq E : SpecFloat.fexp prec emax E = fexp64 E.
Proof. reflexivity. Qed.

(** The first half of [binary_round_aux] on an exact mantissa that sits at
    or below its target exponent: shift and round to nearest even. *)
Lemma shr_fexp_exact mx ex :
  0 <= mx ->
  let et := fexp64 (Zdigits2 mx + ex) in
  ex <= et ->
  exists rec,
    shr_fexp prec emax mx ex loc_Exact = (rec, et)
    /\ round_nearest_even (shr_m rec) (loc_of_shr_record rec)
       = rne mx (et - ex).
Proof.
  intros Hmx et Hn. unfold shr_fexp. rewrite fexp_eq. fold et.
  assert (H0 : shr_inv mx 0 (shr_record_of_loc mx loc_Exact)).
  { exists 0. cbn. repeat split; lia. }
  assert (Het : et = ex + (et - ex)) by lia.
  revert Het. generalize (et - ex) as n. intros n Het.
  unfold shr. destruct n as [|p|p]; try lia.
  - exists (shr_record_of_loc mx loc_Exact).
    split; [f_equal; lia|].
    apply shr_inv_rne; [lia|exact H0].
  - exists (SpecFloat.iter_pos shr_1 p (shr_record_of_loc mx loc_Exact)).
    split; [f_equal; lia|].
    rewrite iter_pos_nat, <- (positive_nat_Z p).
    apply shr_inv_rne; [lia|]. apply shr_inv_iter. exact H0.
Qed.

(** The mantissa and exponent any [shr_fexp] leaves. *)
Lemma shr_fexp_m m e l :
  0 <= m ->
  let n := Z.max 0 (fexp64 (Zdigits2 m + e) - e) in
  shr_m (fst (shr_fexp prec emax m e l)) = m / 2 ^ n
  /\ snd (shr_fexp prec emax m e l) = e + n.
Proof.
  intros Hm n. unfold shr_fexp. rewrite fexp_eq.
  assert (Hrec : shr_m (shr_record_of_loc m l) = m)
    by (destruct l as [|[]]; reflexivity).
  unfold shr, n.
  destruct (fexp64 (Zdigits2 m + e) - e) as [|p|p] eqn:Hp; simpl fst; simpl snd.
  - simpl Z.max. rewrite Z.div_1_r. split; [exact Hrec|lia].
  - rewrite iter_pos_nat, shr_iter_m by lia.
    rewrite positive_nat_Z, Hrec.
    replace (Z.max 0 (Z.pos p)) with (Z.pos p) by lia. split; reflexivity.
  - replace (Z.max 0 (Z.neg p)) with 0 by lia.
    rewrite Z.div_1_r. split; [exact Hrec|lia].
Qed.

Lemma pow2_mul_lt m a b c :
  0 <= a -> 0 <= b -> m < 2 ^ a -> a + b <= c -> m * 2 ^ b < 2 ^ c.
Proof.
  intros Ha Hb Hm Hc.
  assert (2 ^ (a + b) <= 2 ^ c) by (apply Z.pow_le_mono_r; lia).
  rewrite Z.pow_add_r in * by lia.
  pose proof (pow2_pos b Hb). nia.
Qed.

Lemma pow2_mul_ge m a b c :
  0 <= a -> 0 <= b -> 2 ^ a <= m -> c <= a + b -> 2 ^ c <= m * 2 ^ b.
Proof.
  intros Ha Hb Hm Hc.
  assert (2 ^ c <= 2 ^ (a + b)) by (apply Z.pow_le_mono_r; lia).
  rewrite Z.pow_add_r in * by lia.
  pose proof (pow2_pos b Hb). nia.
Qed.

Lemma rne_nonneg m k : 0 <= k -> 0 <= m -> 0 <= rne m k.
Proof.
  intros Hk Hm. pose proof (rne_bounds m k Hk).
  assert (0 <= m / 2 ^ k) by (apply Z.div_pos; [lia|apply pow2_pos; lia]).
  lia.
Qed.

(** [binary_round_aux] on an exact mantissa sitting at or below its target
    exponent: the result is not NaN, carries the sign, and its magnitude is
    the rounded mantissa at the target exponent, capped by the infinity. *)
Lemma round_aux_exact s (mx : positive) ex :
  let et := fexp64 (Zpos (digits2_pos mx) + ex) in
  ex <= et ->
  let R := binary_round_aux prec emax s (Zpos mx) ex loc_Exact in
  R <> S754_nan /\ sb R = s
  /\ M R = Z.min (rne (Zpos mx) (et - ex) * 2 ^ (et + 1074)) INF.
Proof.
  intros et Hn R. unfold R, binary_round_aux.
  destruct (shr_fexp_exact (Zpos mx) ex ltac:(lia) Hn) as (rec & Hshr & Hrne).
  change (Zdigits2 (Zpos mx)) with (Zpos (digits2_pos mx)) in Hshr, Hrne.
  fold et in Hshr, Hrne. rewrite Hshr, Hrne.
  set (m2 := rne (Zpos mx) (et - ex)).
  assert (Het : -1074 <= et) by (unfold et, fexp64; lia).
  assert (Hm2 : 0 <= m2) by (apply rne_nonneg; lia).
  assert (Htop : m2 <= 2 ^ 53).
  { pose proof (rne_top ex (Zpos mx) et ltac:(lia) Hn) as Ht. fold m2 in Ht.
    change (Zdigits2 (Zpos mx)) with (Zpos (digits2_pos mx)) in Ht.
    assert (2 ^ Z.max 0 (Zpos (digits2_pos mx) + ex - et) <= 2 ^ 53)
      by (apply Z.pow_le_mono_r; unfold et, fexp64; lia).
    lia. }
  assert (Hnorm : -1074 < et -> 2 ^ 52 <= m2).
  { intros Hgt. apply rne_normal; [lia|lia|].
    change (Zdigits2 (Zpos mx)) with (Zpos (digits2_pos mx)).
    unfold et, fexp64 in *. lia. }
  destruct (shr_fexp_m m2 et loc_Exact Hm2) as [Hq He].
  destruct (shr_fexp prec emax m2 et loc_Exact) as [rec2 e2].
  cbn [fst snd] in Hq, He.
  assert (HINF : INF = 2 ^ 2098) by reflexivity.
  destruct (Z_lt_le_dec m2 (2 ^ 53)) as [Hlt|Hge].
  - (* no carry: the second shift does nothing *)
    assert (Hn2 : Z.max 0 (fexp64 (Zdigits2 m2 + et) - et) = 0).
    { destruct (Z.eq_dec m2 0) as [->|Hnz];
        [unfold fexp64; simpl Zdigits2; lia|].
      destruct (Zdigits2_spec m2 ltac:(lia)) as (_ & Hlo & _).
      assert (Zdigits2 m2 <= 53).
      { destruct (Z_lt_le_dec 53 (Zdigits2 m2)) as [Hbig|]; [|assumption].
        assert (2 ^ 53 <= 2 ^ (Zdigits2 m2 - 1))
          by (apply Z.pow_le_mono_r; lia).
        lia. }
      unfold fexp64. lia. }
    rewrite Hn2 in Hq, He. rewrite Z.div_1_r in Hq. rewrite Z.add_0_r in He.
    rewrite Hq, He.
    destruct m2 as [|p2|p2] eqn:Hp2; try lia.
    + cbn [M sb]. split; [discriminate|]. split; [reflexivity|].
      rewrite Z.mul_0_l. rewrite Z.min_l; [reflexivity|].
      rewrite HINF. apply Z.pow_nonneg. lia.
    + destruct (Z.leb_spec et (emax - prec)) as [Hfin|Hovf];
        change (emax - prec) with 971 in *; cbn [M sb];
        (split; [discriminate|]); (split; [reflexivity|]).
      * rewrite Z.min_l; [reflexivity|]. rewrite HINF.
        apply Z.lt_le_incl.
        apply (pow2_mul_lt _ 53); lia.
      * rewrite Z.min_r; [reflexivity|]. rewrite HINF.
        apply (pow2_mul_ge _ 52); lia.
  - (* carry into the next binade *)
    assert (Hm2eq : m2 = 2 ^ 53) by lia.
    assert (Hd : Zdigits2 m2 = 54).
    { apply Zdigits2_unique; [rewrite Hm2eq; apply pow2_pos; lia|].
      rewrite Hm2eq. split; [apply Z.le_refl|].
      apply Z.pow_lt_mono_r; lia. }
    assert (Hn2 : Z.max 0 (fexp64 (Zdigits2 m2 + et) - et) = 1)
      by (rewrite Hd; unfold fexp64; lia).
    rewrite Hn2 in Hq, He.
    assert (Hq' : shr_m rec2 = 2 ^ 52).
    { rewrite Hq, Hm2eq. change (2 ^ 53) with (2 ^ 52 * 2 ^ 1).
      apply Z.div_mul. discriminate. }
    rewrite He. clear Hq.
    destruct (shr_m rec2) as [|p2|p2] eqn:Hp2;
      try (exfalso; pose proof (pow2_pos 52 ltac:(lia)); lia).
    destruct (Z.leb_spec (et + 1) (emax - prec)) as [Hfin|Hovf];
      change (emax - prec) with 971 in *; cbn [M sb];
      (split; [discriminate|]); (split; [reflexivity|]).
    + rewrite Hq', Hm2eq.
      replace (et + 1 + 1074) with (1 + (et + 1074)) by lia.
      rewrite (Z.pow_add_r 2 1) by lia.
      change (2 ^ 53) with (2 ^ 52 * 2 ^ 1).
      rewrite Z.min_l; [ring|]. rewrite HINF.
      apply Z.lt_le_incl. rewrite <- Z.mul_assoc, <- Z.pow_add_r by lia.
      apply (pow2_mul_lt _ 53); lia.
    + rewrite Z.min_r; [reflexivity|]. rewrite HINF, Hm2eq.
      apply (pow2_mul_ge _ 53); lia.
Qed.

(** ** Product, sum and difference of finite values *)

Lemma valid_finite s m e :
  valid_binary (S754_finite s m e) = true ->
  fexp64 (Zpos (digits2_pos m) + e) = e /\ e <= 971.
Proof.
  unfold SpecFloat.valid_binary, bounded, canonical_mantissa.
  rewrite fexp_eq. change (emax - prec) with 971.
  intros H. apply andb_true_iff in H as [H1 H2].
  apply Z.eqb_eq in H1. apply Z.leb_le in H2. auto.
Qed.

Lemma valid_finite_bounds s m e :
  valid_binary (S754_finite s m e) = true ->
  -1074 <= e <= 971 /\ Zpos m < 2 ^ 53
  /\ (-1074 < e -> 2 ^ 52 <= Zpos m).
Proof.
  intros H. apply valid_finite in H as [Hc He].
  pose proof (digits2_pos_spec m) as [Hlo Hhi].
  unfold fexp64 in Hc.
  split; [lia|]. split.
  - assert (2 ^ Zpos (digits2_pos m) <= 2 ^ 53)
      by (apply Z.pow_le_mono_r; lia).
    lia.
  - intros Hn. assert (Hd : Zpos (digits2_pos m) = 53) by lia.
    rewrite Hd in Hlo. exact Hlo.
Qed.

(** [round_aux_exact] seen from any exponent [c] below the mantissa's and
    below the subnormal one. *)
Lemma round_aux_rnd s (mx : positive) ex c :
  c <= -1074 -> c <= ex ->
  ex <= fexp64 (Zpos (digits2_pos mx) + ex) ->
  let R := binary_round_aux prec emax s (Zpos mx) ex loc_Exact in
  R <> S754_nan /\ sb R = s /\ M R = rnd c (Zpos mx * 2 ^ (ex - c)).
Proof.
  intros Hc Hcx Hn R.
  destruct (round_aux_exact s mx ex Hn) as (Hnan & Hsb & HM).
  split; [exact Hnan|]. split; [exact Hsb|].
  fold R in HM. rewrite HM, rnd_eq by assumption. unfold rnd_spec.
  pose proof (pow2_pos (ex - c) ltac:(lia)).
  destruct (Z.leb_spec (Zpos mx * 2 ^ (ex - c)) 0) as [Hle|_]; [nia|].
  rewrite Zdigits2_shift by lia.
  change (Zdigits2 (Zpos mx)) with (Zpos (digits2_pos mx)).
  replace (Zpos (digits2_pos mx) + (ex - c) + c)
    with (Zpos (digits2_pos mx) + ex) by lia.
  set (et := fexp64 (Zpos (digits2_pos mx) + ex)) in *.
  replace (et - c) with (et - ex + (ex - c)) by lia.
  rewrite rne_scale by lia. reflexivity.
Qed.

Lemma iter_xO (m d : positive) :
  Zpos (Pos.iter xO m d) = Zpos m * 2 ^ Zpos d.
Proof.
  induction d as [|d IH] using Pos.peano_ind.
  - change (Pos.iter xO m 1) with (xO m). rewrite (Pos2Z.inj_xO m).
    change (2 ^ 1) with 2. ring.
  - rewrite Pos.iter_succ, (Pos2Z.inj_xO (Pos.iter xO m d)), IH,
      Pos2Z.inj_succ.
    rewrite Z.pow_succ_r by lia. ring.
Qed.

Lemma shl_align_spec mx ex ex' :
  ex' <= ex ->
  Zpos (fst (shl_align mx ex ex')) = Zpos mx * 2 ^ (ex - ex')
  /\ snd (shl_align mx ex ex') = ex'.
Proof.
  intros Hle. unfold shl_align.
  destruct (ex' - ex) as [|d|d] eqn:Hd; try lia; cbn [fst snd].
  - replace (ex - ex') with 0 by lia. rewrite Z.mul_1_r.
    split; [reflexivity|lia].
  - rewrite iter_xO. replace (ex - ex') with (Zpos d) by lia.
    split; reflexivity.
Qed.

(** [binary_round]: the mantissa is first aligned on its target exponent
    when it sits above it. *)
Lemma round_rnd s (m : positive) e c :
  c <= -1074 -> c <= e ->
  let R := binary_round prec emax s m e in
  R <> S754_nan /\ sb R = s /\ M R = rnd c (Zpos m * 2 ^ (e - c)).
Proof.
  intros Hc Hce R. unfold R, binary_round. rewrite fexp_eq.
  set (et := fexp64 (Zpos (digits2_pos m) + e)).
  assert (Het : -1074 <= et) by (unfold et, fexp64; lia).
  destruct (Z_lt_le_dec et e) as [Hlt|Hge].
  - destruct (shl_align_spec m e et ltac:(lia)) as [Hmz Hez].
    destruct (shl_align m e et) as [mz ez]. cbn [fst snd] in *. subst ez.
    assert (Hdig : Zpos (digits2_pos mz) = Zpos (digits2_pos m) + (e - et)).
    { change (Zdigits2 (Zpos mz) = Zdigits2 (Zpos m) + (e - et)).
      rewrite Hmz. apply Zdigits2_shift; lia. }
    destruct (round_aux_rnd s mz et c Hc ltac:(lia)) as (Hnan & Hsb & HM).
    { rewrite Hdig. replace (Zpos (digits2_pos m) + (e - et) + et)
        with (Zpos (digits2_pos m) + e) by lia. fold et. lia. }
    split; [exact Hnan|]. split; [exact Hsb|].
    rewrite HM, Hmz, <- Z.mul_assoc, <- Z.pow_add_r by lia.
    replace (e - et + (et - c)) with (e - c) by lia. reflexivity.
  - assert (Hal : shl_align m e et = (m, e)).
    { unfold shl_align.
      destruct (et - e) as [|d|d] eqn:Hd; try lia; reflexivity. }
    rewrite Hal.
    apply round_aux_rnd; [exact Hc|exact Hce|fold et; lia].
Qed.

(** A binary64 value rounds to itself. *)
Lemma rnd_id s m e :
  valid_binary (S754_finite s m e) = true ->
  rnd (-1074) (Zpos m * 2 ^ (e + 1074)) = Zpos m * 2 ^ (e + 1074).
Proof.
  intros Hv. destruct (valid_finite_bounds s m e Hv) as (He & Hm & _).
  apply valid_finite in Hv as [Hcan _].
  pose proof (pow2_pos (e + 1074) ltac:(lia)).
  rewrite rnd_eq by lia. unfold rnd_spec.
  destruct (Z.leb_spec (Zpos m * 2 ^ (e + 1074)) 0) as [Hle|_]; [nia|].
  rewrite Zdigits2_shift by lia.
  change (Zdigits2 (Zpos m)) with (Zpos (digits2_pos m)).
  replace (Zpos (digits2_pos m) + (e + 1074) + -1074)
    with (Zpos (digits2_pos m) + e) by lia.
  rewrite Hcan. replace (e - -1074) with (e + 1074) by lia.
  rewrite rne_exact by lia.
  apply Z.min_l. apply Z.lt_le_incl. apply (pow2_mul_lt _ 53); lia.
Qed.

(** Product of two finite values. *)
Lemma SFmul_finite sx mx ex sy my ey :
  valid_binary (S754_finite sx mx ex) = true ->
  valid_binary (S754_finite sy my ey) = true ->
  let R := SFmul prec emax (S754_finite sx mx ex) (S754_finite sy my ey) in
  R <> S754_nan /\ sb R = xorb sx sy
  /\ M R = rmul (Zpos mx * 2 ^ (ex + 1074)) (Zpos my * 2 ^ (ey + 1074)).
Proof.
  intros Hx Hy R. unfold R, SFmul.
  destruct (valid_finite_bounds _ _ _ Hx) as (Hex & Hmx & Hnx).
  destruct (valid_finite_bounds _ _ _ Hy) as (Hey & Hmy & Hny).
  destruct (round_aux_rnd (xorb sx sy) (mx * my) (ex + ey) (-2148))
    as (Hnan & Hsb & HM); [lia|lia| |].
  - unfold fexp64.
    destruct (Z_le_gt_dec (ex + ey) (-1074)) as [Hsmall|Hbig]; [lia|].
    assert (Hprod : 2 ^ 52 <= Zpos (mx * my)).
    { rewrite Pos2Z.inj_mul.
      destruct (Z_le_gt_dec ex (-1074)) as [Hsx|Hbx].
      - specialize (Hny ltac:(lia)). nia.
      - specialize (Hnx ltac:(lia)). nia. }
    assert (53 <= Zpos (digits2_pos (mx * my))).
    { change (Zdigits2 (2 ^ 52) <= Zdigits2 (Zpos (mx * my))).
      apply Zdigits2_mono; [reflexivity|exact Hprod]. }
    lia.
  - split; [exact Hnan|]. split; [exact Hsb|].
    rewrite HM. unfold rmul. f_equal. rewrite Pos2Z.inj_mul.
    replace (ex + ey - -2148) with ((ex + 1074) + (ey + 1074)) by lia.
    rewrite Z.pow_add_r by lia. ring.
Qed.

(** Sum of two finite values of the same sign. *)
Lemma SFadd_finite s mx ex my ey :
  -1074 <= ex -> -1074 <= ey ->
  let R := SFadd prec emax (S754_finite s mx ex) (S754_finite s my ey) in
  R <> S754_nan /\ sb R = s
  /\ M R = radd (Zpos mx * 2 ^ (ex + 1074)) (Zpos my * 2 ^ (ey + 1074)).
Proof.
  intros Hex Hey R. unfold R, SFadd.
  set (ez := Z.min ex ey).
  destruct (shl_align_spec mx ex ez ltac:(lia)) as [Hx' _].
  destruct (shl_align_spec my ey ez ltac:(lia)) as [Hy' _].
  set (mx' := fst (shl_align mx ex ez)) in *.
  set (my' := fst (shl_align my ey ez)) in *.
  assert (Hsum : cond_Zopp s (Zpos mx') + cond_Zopp s (Zpos my')
                 = cond_Zopp s (Zpos (mx' + my')))
    by (destruct s; reflexivity).
  rewrite Hsum.
  assert (Hnorm : binary_normalize prec emax (cond_Zopp s (Zpos (mx' + my')))
                    ez false = binary_round prec emax s (mx' + my') ez)
    by (destruct s; reflexivity).
  rewrite Hnorm.
  destruct (round_rnd s (mx' + my') ez (-1074)) as (Hnan & Hsb & HM);
    [lia|lia|].
  split; [exact Hnan|]. split; [exact Hsb|].
  rewrite HM. unfold radd. f_equal.
  rewrite Pos2Z.inj_add, Hx', Hy'.
  replace (ex + 1074) with ((ex - ez) + (ez - -1074)) by lia.
  replace (ey + 1074) with ((ey - ez) + (ez - -1074)) by lia.
  rewrite !Z.pow_add_r by lia. ring.
Qed.

(** Difference of two finite positive values, the larger first. *)
Lemma SFsub_finite mx ex my ey :
  -1074 <= ex -> -1074 <= ey ->
  Zpos my * 2 ^ (ey + 1074) < Zpos mx * 2 ^ (ex + 1074) ->
  let R := SFsub prec emax (S754_finite false mx ex)
                           (S754_finite false my ey) in
  R <> S754_nan /\ sb R = false
  /\ M R = rsub (Zpos mx * 2 ^ (ex + 1074)) (Zpos my * 2 ^ (ey + 1074)).
Proof.
  intros Hex Hey Hlt R. unfold R, SFsub.
  set (ez := Z.min ex ey).
  destruct (shl_align_spec mx ex ez ltac:(lia)) as [Hx' _].
  destruct (shl_align_spec my ey ez ltac:(lia)) as [Hy' _].
  set (mx' := fst (shl_align mx ex ez)) in *.
  set (my' := fst (shl_align my ey ez)) in *.
  cbn [cond_Zopp].
  assert (Hval : Zpos mx * 2 ^ (ex + 1074) - Zpos my * 2 ^ (ey + 1074)
                 = (Zpos mx' - Zpos my') * 2 ^ (ez - -1074)).
  { rewrite Hx', Hy'.
    replace (ex + 1074) with ((ex - ez) + (ez - -1074)) by lia.
    replace (ey + 1074) with ((ey - ez) + (ez - -1074)) by lia.
    rewrite !Z.pow_add_r by lia. ring. }
  pose proof (pow2_pos (ez - -1074) ltac:(lia)) as Hp.
  destruct (Zpos mx' - Zpos my') as [|d|d] eqn:Hd; try nia.
  cbn [binary_normalize].
  destruct (round_rnd false d ez (-1074)) as (Hnan & Hsb & HM); [lia|lia|].
  split; [exact Hnan|]. split; [exact Hsb|].
  rewrite HM. unfold rsub. f_equal. symmetry. exact Hval.
Qed.

(** ** Bounds through one operation *)

Lemma INF_pos : 0 < INF.
Proof. apply pow2_pos. lia. Qed.

Lemma M_nonneg x : 0 <= M x.
Proof.
  destruct x as [s|s| |s m e]; cbn [M];
    first [ lia
          | pose proof INF_pos; lia
          | unfold TOP; apply Z.pow_nonneg; lia
          | apply Z.mul_nonneg_nonneg; [lia|apply Z.pow_nonneg; lia] ].
Qed.

Lemma M_finite_lt_INF s m e :
  valid_binary (S754_finite s m e) = true -> M (S754_finite s m e) < INF.
Proof.
  intros Hv. destruct (valid_finite_bounds s m e Hv) as (He & Hm & _).
  cbn [M]. apply (pow2_mul_lt _ 53); lia.
Qed.

Lemma rnd_M_id x :
  valid_binary x = true -> x <> S754_nan -> rnd (-1074) (M x) = M x.
Proof.
  intros Hv Hnan. destruct x as [s|s| |s m e]; cbn [M].
  - apply rnd_nonpos. lia.
  - (* the infinity is a fixed point: 2^2098 rounds to itself *)
    vm_compute. reflexivity.
  - congruence.
  - apply (rnd_id s). exact Hv.
Qed.

Section Bounds.
Variables X Y : spec_float.
Hypothesis HvX : valid_binary X = true.
Hypothesis HvY : valid_binary Y = true.

Lemma mul_LB sx sy a b :
  0 <= a -> 0 <= b -> LB sx X a -> LB sy Y b ->
  LB (xorb sx sy) (SFmul prec emax X Y) (rmul a b).
Proof.
  intros Ha Hb [->|[Hsx HaX]]; [left; reflexivity|].
  intros [->|[Hsy HbY]]; [left; destruct X; reflexivity|].
  pose proof (rnd_le_INF (-2148) (a * b) ltac:(lia)) as Hinf.
  destruct X as [s1|s1| |s1 m1 e1], Y as [s2|s2| |s2 m2 e2];
    cbn [sb M] in *; subst; cbn [SFmul];
    try (left; reflexivity);
    try (right; split; [reflexivity|]; cbn [M]; exact Hinf);
    try (right; split; [reflexivity|]; cbn [M];
         unfold rmul; rewrite rnd_nonpos by nia; lia).
  destruct (SFmul_finite _ _ _ _ _ _ HvX HvY) as (_ & Hs & HM).
  cbn [SFmul] in Hs, HM.
  right. split; [exact Hs|]. rewrite HM. unfold rmul.
  apply rnd_mono; [lia|]. apply Z.mul_le_mono_nonneg; assumption.
Qed.

Lemma mul_UB sx sy a b :
  a < INF -> b < INF -> UB sx X a -> UB sy Y b ->
  UB (xorb sx sy) (SFmul prec emax X Y) (rmul a b).
Proof.
  intros Ha Hb (HnX & Hsx & HaX) (HnY & Hsy & HbY).
  pose proof (rnd_nonneg (-2148) (a * b) ltac:(lia)) as Hnn.
  pose proof (M_nonneg X) as HMX. pose proof (M_nonneg Y) as HMY.
  destruct X as [s1|s1| |s1 m1 e1], Y as [s2|s2| |s2 m2 e2];
    cbn [sb M] in *; subst; cbn [SFmul]; try congruence; try lia;
    try (split; [discriminate|]; split; [reflexivity|]; cbn [M]; exact Hnn).
  destruct (SFmul_finite _ _ _ _ _ _ HvX HvY) as (Hn & Hs & HM).
  cbn [SFmul] in Hn, Hs, HM.
  split; [exact Hn|]. split; [exact Hs|]. rewrite HM. unfold rmul.
  apply rnd_mono; [lia|]. apply Z.mul_le_mono_nonneg; lia.
Qed.

Lemma add_LB s a b :
  0 <= a -> 0 <= b -> LB s X a -> LB s Y b ->
  LB s (SFadd prec emax X Y) (radd a b).
Proof.
  intros Ha Hb [->|[Hsx HaX]]; [left; reflexivity|].
  intros [->|[Hsy HbY]]; [left; destruct X; reflexivity|].
  pose proof (rnd_le_INF (-1074) (a + b) ltac:(lia)) as Hinf.
  assert (HidX : X <> S754_nan -> radd a b <= rnd (-1074) (M X + b)).
  { intros _. apply rnd_mono; lia. }
  pose proof (rnd_M_id X HvX) as HrX. pose proof (rnd_M_id Y HvY) as HrY.
  destruct X as [s1|s1| |s1 m1 e1], Y as [s2|s2| |s2 m2 e2];
    cbn [sb M] in *; subst; cbn [SFadd];
    try (left; reflexivity);
    try (right; split; [reflexivity|]; cbn [M]; exact Hinf).
  - (* zero + zero *)
    right. destruct s; (split; [reflexivity|]); cbn [M];
      unfold radd; rewrite rnd_nonpos by lia; lia.
  - (* zero + finite *)
    right. split; [reflexivity|]. cbn [M].
    rewrite <- HrY by discriminate. apply rnd_mono; lia.
  - (* infinity + infinity *)
    right. destruct s; (split; [reflexivity|]); cbn [M]; exact Hinf.
  - (* finite + zero *)
    right. split; [reflexivity|]. cbn [M].
    rewrite <- HrX by discriminate. apply rnd_mono; lia.
  - (* finite + finite *)
    destruct (valid_finite_bounds _ _ _ HvX) as (He1 & _).
    destruct (valid_finite_bounds _ _ _ HvY) as (He2 & _).
    destruct (SFadd_finite s m1 e1 m2 e2) as (_ & Hs & HM); [lia|lia|].
    cbn [SFadd] in Hs, HM.
    right. split; [exact Hs|]. rewrite HM. apply rnd_mono; lia.
Qed.

Lemma sub_LB a b :
  0 <= b -> b < a -> LB false X a -> UB false Y b ->
  LB false (SFsub prec emax X Y) (rsub a b).
Proof.
  intros Hb Hab [->|[Hsx HaX]]; [left; reflexivity|].
  intros (HnY & Hsy & HbY).
  pose proof (rnd_le_INF (-1074) (a - b) ltac:(lia)) as Hinf.
  pose proof (rnd_M_id X HvX) as HrX.
  pose proof (M_nonneg Y) as HMY.
  destruct X as [s1|s1| |s1 m1 e1], Y as [s2|s2| |s2 m2 e2];
    cbn [sb] in *; subst; cbn [SFsub]; try congruence;
    try (cbn [M] in *; lia);
    try (left; reflexivity);
    try (right; split; [reflexivity|]; cbn [M]; exact Hinf).
  - (* finite - zero *)
    right. split; [reflexivity|].
    rewrite <- HrX by discriminate. apply rnd_mono; lia.
  - (* finite - infinity *)
    pose proof (M_finite_lt_INF _ _ _ HvX). cbn [M] in *. lia.
  - (* finite - finite *)
    destruct (valid_finite_bounds _ _ _ HvX) as (He1 & _).
    destruct (valid_finite_bounds _ _ _ HvY) as (He2 & _).
    cbn [M] in *.
    destruct (SFsub_finite m1 e1 m2 e2) as (_ & Hs & HM); [lia|lia|lia|].
    cbn [SFsub] in Hs, HM.
    right. split; [exact Hs|]. rewrite HM. apply rnd_mono; lia.
Qed.
End Bounds.

Lemma sqr_LB X :
  valid_binary X = true -> LB false (SFmul prec emax X X) 0.
Proof.
  intros Hv.
  destruct X as [s|s| |s m e]; cbn [SFmul];
    try (left; reflexivity);
    try (right; split;
         [destruct s; reflexivity|cbn [M]; pose proof INF_pos; lia]).
  destruct (SFmul_finite s m e s m e Hv Hv) as (_ & Hs & HM).
  cbn [SFmul] in Hs, HM.
  right. split; [rewrite Hs; destruct s; reflexivity|].
  apply M_nonneg.
Qed.

(** ** Comparison and square root *)

(** [x < y] as the comparison of binary64 reads it, on positive finite
    values. *)
Lemma SFltb_finite m1 e1 m2 e2 :
  valid_binary (S754_finite false m1 e1) = true ->
  valid_binary (S754_finite false m2 e2) = true ->
  SFltb (S754_finite false m1 e1) (S754_finite false m2 e2) = true ->
  Zpos m1 * 2 ^ (e1 + 1074) < Zpos m2 * 2 ^ (e2 + 1074).
Proof.
  intros H1 H2. unfold SFltb. cbn [SFcompare].
  destruct (valid_finite_bounds _ _ _ H1) as (He1 & Hm1 & _).
  destruct (valid_finite_bounds _ _ _ H2) as (He2 & Hm2 & Hn2).
  destruct (Z.compare_spec e1 e2) as [->|Hee|Hee]; try discriminate.
  - rewrite Pos.compare_cont_spec.
    destruct (Pos.compare_spec m1 m2) as [->|Hmm|Hmm]; cbn [Pos.switch_Eq];
      try discriminate.
    intros _. apply Z.mul_lt_mono_pos_r; [apply pow2_pos; lia|lia].
  - intros _.
    apply Z.lt_le_trans with (2 ^ (53 + (e1 + 1074))).
    + apply (pow2_mul_lt _ 53); lia.
    + apply (pow2_mul_ge _ 52); lia.
Qed.

(** [c < x] for a positive finite [c]. *)
Lemma SFltb_LB mc ec X :
  valid_binary (S754_finite false mc ec) = true ->
  valid_binary X = true ->
  SFltb (S754_finite false mc ec) X = true ->
  LB false X (M (S754_finite false mc ec)).
Proof.
  intros Hc Hv Hlt.
  destruct X as [s|s| |s m e]; try discriminate.
  - destruct s; [discriminate|]. right. split; [reflexivity|].
    apply Z.lt_le_incl. apply M_finite_lt_INF. exact Hc.
  - destruct s; [discriminate|]. right. split; [reflexivity|].
    apply Z.lt_le_incl. cbn [M]. apply SFltb_finite; assumption.
Qed.

(** [x < c] fails once [x] is NaN or at least [c]. *)
Lemma SFltb_false X mc ec :
  valid_binary X = true ->
  valid_binary (S754_finite false mc ec) = true ->
  LB false X (M (S754_finite false mc ec)) ->
  SFltb X (S754_finite false mc ec) = false.
Proof.
  intros Hv Hc [->|[Hs HM]]; [reflexivity|].
  destruct X as [s|s| |s m e]; cbn [sb] in Hs; subst.
  - cbn [M] in HM. pose proof (pow2_pos (ec + 1074)).
    destruct (valid_finite_bounds _ _ _ Hc) as (Hec & _). nia.
  - reflexivity.
  - reflexivity.
  - destruct (SFltb (S754_finite false m e) (S754_finite false mc ec))
      eqn:Hlt; [|reflexivity].
    apply SFltb_finite in Hlt; [|assumption|assumption].
    cbn [M] in HM. lia.
Qed.

Lemma round_nearest_even_bounds m l :
  m <= round_nearest_even m l <= m + 1.
Proof.
  destruct l as [|[]]; cbn [round_nearest_even]; try lia.
  destruct (Z.even m); lia.
Qed.

(** The square root of a value of at least 4 is NaN or at least 2. *)
Lemma SFsqrt_ge_2 S :
  valid_binary S = true ->
  LB false S (2 ^ 1076) ->
  LB false (SFsqrt prec emax S) (2 ^ 1075).
Proof.
  intros Hv [->|[Hs HM]]; [left; reflexivity|].
  destruct S as [s|s| |s mx ex]; cbn [sb M] in *; subst.
  - pose proof (pow2_pos 1076 ltac:(lia)). lia.
  - right. split; [reflexivity|]. cbn [M]. unfold INF.
    apply Z.pow_le_mono_r; lia.
  - left. reflexivity.
  - destruct (valid_finite_bounds _ _ _ Hv) as (He & Hm & Hn).
    apply valid_finite in Hv as [Hcan _].
    assert (Hex : -50 <= ex).
    { destruct (Z_lt_le_dec ex (-50)) as [Hlt|]; [|assumption].
      assert (Zpos mx * 2 ^ (ex + 1074) < 2 ^ 1076)
        by (apply (pow2_mul_lt _ 53); lia).
      lia. }
    specialize (Hn ltac:(lia)).
    assert (Hd : Zpos (digits2_pos mx) = 53) by (unfold fexp64 in Hcan; lia).
    unfold SFsqrt, SFsqrt_core_binary. rewrite fexp_eq.
    change (Zdigits2 (Zpos mx)) with (Zpos (digits2_pos mx)). rewrite Hd.
    pose proof (Z.div2_odd ex) as Hodd.
    pose proof (Z.div2_odd (53 + ex + 1)) as Hodd'.
    set (h := Z.div2 ex) in *. set (h' := Z.div2 (53 + ex + 1)) in *.
    assert (Hb : 0 <= Z.b2z (Z.odd ex) <= 1)
      by (destruct (Z.odd ex); cbn [Z.b2z]; lia).
    assert (Hb' : 0 <= Z.b2z (Z.odd (53 + ex + 1)) <= 1)
      by (destruct (Z.odd (53 + ex + 1)); cbn [Z.b2z]; lia).
    assert (Hh' : h' = h + 27) by lia.
    assert (He' : Z.min (fexp64 h') h = h - 26) by (unfold fexp64; lia).
    rewrite He'. set (e' := h - 26).
    assert (Hs : ex - 2 * e' = 52 \/ ex - 2 * e' = 53)
      by (unfold e'; lia).
    set (sh := ex - 2 * e') in *.
    assert (Hm' : match sh with
                  | Zpos _ => Z.shiftl (Zpos mx) sh
                  | Z0 => Zpos mx
                  | Zneg _ => 0
                  end = Zpos mx * 2 ^ sh).
    { destruct sh; try lia. apply Z.shiftl_mul_pow2. lia. }
    rewrite Hm'. set (m' := Zpos mx * 2 ^ sh).
    assert (Hm'lo : 2 ^ 104 <= m') by (apply (pow2_mul_ge _ 52); lia).
    assert (Hm'hi : m' < 2 ^ 106) by (apply (pow2_mul_lt _ 53); lia).
    pose proof (Z.sqrtrem_spec m' ltac:(lia)) as Hsq.
    destruct (Z.sqrtrem m') as [q r]. destruct Hsq as [Hsq Hr].
    assert (Hq : 2 ^ 52 <= q < 2 ^ 53).
    { change (2 ^ 104) with (2 ^ 52 * 2 ^ 52) in Hm'lo.
      change (2 ^ 106) with (2 ^ 53 * 2 ^ 53) in Hm'hi.
      set (P := 2 ^ 52) in *. set (Q := 2 ^ 53) in *.
      assert (0 < P) by (apply pow2_pos; lia).
      assert (0 < Q) by (apply pow2_pos; lia).
      clearbody P Q. nia. }
    set (l := if r =? 0 then loc_Exact
              else loc_Inexact (if r <=? q then Lt else Gt)).
    unfold binary_round_aux.
    assert (Hdq : Zdigits2 q = 53) by (apply Zdigits2_unique; lia).
    destruct (shr_fexp_m q e' l ltac:(lia)) as [Hq1 He1].
    rewrite Hdq in Hq1, He1.
    replace (Z.max 0 (fexp64 (53 + e') - e')) with 0 in Hq1, He1
      by (unfold fexp64, e'; lia).
    rewrite Z.div_1_r in Hq1. rewrite Z.add_0_r in He1.
    destruct (shr_fexp prec emax q e' l) as [rec1 e1].
    cbn [fst snd] in Hq1, He1. subst e1.
    pose proof (round_nearest_even_bounds (shr_m rec1)
                  (loc_of_shr_record rec1)) as Hm2.
    set (m2 := round_nearest_even (shr_m rec1) (loc_of_shr_record rec1)) in *.
    rewrite Hq1 in Hm2.
    destruct (shr_fexp_m m2 e' loc_Exact ltac:(lia)) as [Hq2 He2].
    destruct (shr_fexp prec emax m2 e' loc_Exact) as [rec2 e2].
    cbn [fst snd] in Hq2, He2.
    assert (Hres : 2 ^ 52 <= shr_m rec2 /\ e' <= e2).
    { destruct (Z_lt_le_dec m2 (2 ^ 53)) as [Hlt|Hge].
      - assert (Hd2 : Zdigits2 m2 = 53) by (apply Zdigits2_unique; lia).
        rewrite Hd2 in Hq2, He2.
        replace (Z.max 0 (fexp64 (53 + e') - e')) with 0 in Hq2, He2
          by (unfold fexp64, e'; lia).
        rewrite Z.div_1_r in Hq2. lia.
      - assert (Hm2eq : m2 = 2 ^ 53) by lia.
        assert (Hd2 : Zdigits2 m2 = 54).
        { apply Zdigits2_unique; [lia|]. rewrite Hm2eq.
          split; [apply Z.le_refl|]. apply Z.pow_lt_mono_r; lia. }
        rewrite Hd2 in Hq2, He2.
        replace (Z.max 0 (fexp64 (54 + e') - e')) with 1 in Hq2, He2
          by (unfold fexp64, e'; lia).
        rewrite Hm2eq in Hq2. change (2 ^ 53) with (2 ^ 52 * 2 ^ 1) in Hq2.
        rewrite Z.div_mul in Hq2 by discriminate. lia. }
    destruct Hres as [Hp He2'].
    destruct (shr_m rec2) as [|p|p]; try lia.
    right.
    destruct (e2 <=? emax - prec); (split; [reflexivity|]); cbn [M].
    + apply (pow2_mul_ge _ 52); unfold e' in *; lia.
    + unfold INF. apply Z.pow_le_mono_r; lia.
Qed.

(** ** The same bounds on primitive floats *)

Lemma LB_weaken s x a a' : a' <= a -> LB s x a -> LB s x a'.
Proof.
  intros Hle [->|[Hs Ha]]; [left; reflexivity|].
  right. split; [exact Hs|lia].
Qed.

Section PrimBounds.
Variables x y : float.

Lemma mul_LBf sx sy a b :
  0 <= a -> 0 <= b -> LBf sx x a -> LBf sy y b ->
  LBf (xorb sx sy) (x * y) (rmul a b).
Proof.
  unfold LBf. rewrite mul_spec. apply mul_LB; apply Prim2SF_valid.
Qed.

Lemma mul_UBf sx sy a b :
  a < INF -> b < INF -> UBf sx x a -> UBf sy y b ->
  UBf (xorb sx sy) (x * y) (rmul a b).
Proof.
  unfold UBf. rewrite mul_spec. apply mul_UB; apply Prim2SF_valid.
Qed.

Lemma add_LBf s a b :
  0 <= a -> 0 <= b -> LBf s x a -> LBf s y b -> LBf s (x + y) (radd a b).
Proof.
  unfold LBf. rewrite add_spec. apply add_LB; apply Prim2SF_valid.
Qed.

Lemma sub_LBf a b :
  0 <= b -> b < a -> LBf false x a -> UBf false y b ->
  LBf false (x - y) (rsub a b).
Proof.
  unfold LBf, UBf. rewrite sub_spec. apply sub_LB; apply Prim2SF_valid.
Qed.

Lemma sqr_LBf : LBf false (x * x) 0.
Proof.
  unfold LBf. rewrite mul_spec. apply sqr_LB. apply Prim2SF_valid.
Qed.
End PrimBounds.

Lemma ltb_one_LBf x : (1 <? x)%float = true -> LBf false x one.
Proof.
  rewrite ltb_spec. intros H.
  change (Prim2SF 1) with (S754_finite false 4503599627370496 (-52)) in H.
  apply SFltb_LB in H; [exact H|reflexivity|apply Prim2SF_valid].
Qed.

Lemma sqrt_not_lt_2 x a :
  four <= a -> LBf false x a -> (PrimFloat.sqrt x <? 2)%float = false.
Proof.
  intros Ha H. rewrite ltb_spec, sqrt_spec.
  change (Prim2SF 2) with (S754_finite false 4503599627370496 (-51)).
  apply SFltb_false.
  - rewrite <- sqrt_spec. apply Prim2SF_valid.
  - reflexivity.
  - apply SFsqrt_ge_2; [apply Prim2SF_valid|].
    apply (LB_weaken _ _ a); assumption.
Qed.

(** ** Bounds on primitive floats, from below and from above *)

Lemma rmul_nonneg a b : 0 <= rmul a b.
Proof. apply rnd_nonneg. lia. Qed.

Lemma radd_nonneg a b : 0 <= radd a b.
Proof. apply rnd_nonneg. lia. Qed.

Lemma rsub_nonneg a b : 0 <= rsub a b.
Proof. apply rnd_nonneg. lia. Qed.

Lemma zero_LBf : LBf false 0 0.
Proof. right. split; [reflexivity|]. cbn. lia. Qed.

Lemma sqr_LBf_from s z a :
  0 <= a -> LBf s z a -> LBf false (z * z) (rmul a a).
Proof.
  intros Ha Hz. replace false with (xorb s s) by (destruct s; reflexivity).
  apply mul_LBf; assumption.
Qed.

Lemma SFadd_zero_l X :
  SFadd prec emax (S754_zero false) X = X
  \/ (X = S754_zero true
      /\ SFadd prec emax (S754_zero false) X = S754_zero false).
Proof.
  destruct X as [[|]|s| |s m e]; cbn [SFadd]; auto.
Qed.

(** [x < c] fails between positive finite values only when [c <= x]. *)
Lemma SFltb_finite_ge m1 e1 m2 e2 :
  valid_binary (S754_finite false m1 e1) = true ->
  valid_binary (S754_finite false m2 e2) = true ->
  SFltb (S754_finite false m1 e1) (S754_finite false m2 e2) = false ->
  Zpos m2 * 2 ^ (e2 + 1074) <= Zpos m1 * 2 ^ (e1 + 1074).
Proof.
  intros H1 H2. unfold SFltb. cbn [SFcompare].
  destruct (valid_finite_bounds _ _ _ H1) as (He1 & Hm1 & Hn1).
  destruct (valid_finite_bounds _ _ _ H2) as (He2 & Hm2 & _).
  destruct (Z.compare_spec e1 e2) as [->|Hee|Hee]; try discriminate.
  - rewrite Pos.compare_cont_spec.
    destruct (Pos.compare_spec m1 m2) as [->|Hmm|Hmm]; cbn [Pos.switch_Eq];
      try discriminate.
    + intros _. lia.
    + intros _. apply Z.mul_le_mono_nonneg_r; [apply Z.pow_nonneg|]; lia.
  - intros _. apply Z.lt_le_incl.
    apply Z.lt_le_trans with (2 ^ (53 + (e2 + 1074))).
    + apply (pow2_mul_lt _ 53); lia.
    + apply (pow2_mul_ge _ 52); lia.
Qed.

Lemma two_pos : 0 < two.
Proof. apply pow2_pos. lia. Qed.

(** [0 + x] is [x], but for the sign of a zero. *)
Lemma first_LBf s x a : 0 < a -> LBf s x a -> LBf s (0 + x) a.
Proof.
  unfold LBf. intros Ha H.
  assert (Hadd : Prim2SF (0 + x)
                 = SFadd prec emax (S754_zero false) (Prim2SF x))
    by (rewrite add_spec; reflexivity).
  rewrite Hadd.
  destruct (SFadd_zero_l (Prim2SF x)) as [->|[Hz _]]; [exact H|].
  rewrite Hz in H. destruct H as [H|[_ H]]; [discriminate|].
  cbn [M] in H. lia.
Qed.

Lemma two_squared :
  four <= radd (rmul two two) 0 /\ four <= radd 0 (rmul two two).
Proof. split; apply Z.leb_le; vm_compute; reflexivity. Qed.

Lemma within_UB X b : within X b <-> UB (sb X) X b.
Proof. unfold within, UB. tauto. Qed.

Lemma within_opp X b : within X b -> within (SFopp X) b.
Proof.
  intros [Hn HM]. destruct X; cbn [SFopp]; split; try congruence; exact HM.
Qed.

Lemma SFsub_add_opp X Y :
  SFsub prec emax X Y = SFadd prec emax X (SFopp Y).
Proof.
  destruct X as [s1|s1| |s1 m1 e1], Y as [s2|s2| |s2 m2 e2];
    cbn [SFsub SFadd SFopp]; try reflexivity;
    destruct s1, s2; reflexivity.
Qed.

(** The sum of two finite values, whatever their signs, is at most the
    rounded sum of their magnitudes. *)
Lemma SFadd_finite_within s1 m1 e1 s2 m2 e2 :
  -1074 <= e1 -> -1074 <= e2 ->
  within (SFadd prec emax (S754_finite s1 m1 e1) (S754_finite s2 m2 e2))
         (radd (Zpos m1 * 2 ^ (e1 + 1074)) (Zpos m2 * 2 ^ (e2 + 1074))).
Proof.
  intros He1 He2. cbn [SFadd]. set (ez := Z.min e1 e2).
  destruct (shl_align_spec m1 e1 ez ltac:(lia)) as [H1 _].
  destruct (shl_align_spec m2 e2 ez ltac:(lia)) as [H2 _].
  set (a := fst (shl_align m1 e1 ez)) in *.
  set (b := fst (shl_align m2 e2 ez)) in *.
  assert (Hsum : Zpos m1 * 2 ^ (e1 + 1074) + Zpos m2 * 2 ^ (e2 + 1074)
                 = (Zpos a + Zpos b) * 2 ^ (ez - -1074)).
  { rewrite H1, H2.
    replace (e1 + 1074) with ((e1 - ez) + (ez - -1074)) by lia.
    replace (e2 + 1074) with ((e2 - ez) + (ez - -1074)) by lia.
    rewrite !Z.pow_add_r by lia. ring. }
  pose proof (Z.pow_nonneg 2 (ez - -1074) ltac:(lia)) as Hp.
  unfold radd. rewrite Hsum.
  assert (Hv : Z.abs (cond_Zopp s1 (Zpos a) + cond_Zopp s2 (Zpos b))
               <= Zpos a + Zpos b)
    by (destruct s1, s2; cbn [cond_Zopp]; lia).
  destruct (cond_Zopp s1 (Zpos a) + cond_Zopp s2 (Zpos b)) as [|p|p];
    cbn [binary_normalize].
  - split; [discriminate|]. cbn [M]. apply rnd_nonneg. lia.
  - destruct (round_rnd false p ez (-1074)) as (Hn & _ & HM); [lia|lia|].
    split; [exact Hn|]. rewrite HM. apply rnd_mono; [lia|].
    apply Z.mul_le_mono_nonneg_r; [exact Hp|lia].
  - destruct (round_rnd true p ez (-1074)) as (Hn & _ & HM); [lia|lia|].
    split; [exact Hn|]. rewrite HM. apply rnd_mono; [lia|].
    apply Z.mul_le_mono_nonneg_r; [exact Hp|lia].
Qed.

Section Within.
Variables X Y : spec_float.
Hypothesis HvX : valid_binary X = true.
Hypothesis HvY : valid_binary Y = true.

Lemma within_mul a b :
  a < INF -> b < INF -> within X a -> within Y b ->
  within (SFmul prec emax X Y) (rmul a b).
Proof.
  intros Ha Hb HX HY. apply within_UB in HX, HY.
  destruct (mul_UB X Y HvX HvY (sb X) (sb Y) a b Ha Hb HX HY) as (Hn & _ & HM).
  split; assumption.
Qed.

Lemma within_add a b :
  a < INF -> b < INF -> within X a -> within Y b ->
  within (SFadd prec emax X Y) (radd a b).
Proof.
  intros Ha Hb [HnX HaX] [HnY HbY].
  pose proof (M_nonneg X) as HMX. pose proof (M_nonneg Y) as HMY.
  pose proof (rnd_M_id X HvX HnX) as HrX.
  pose proof (rnd_M_id Y HvY HnY) as HrY.
  pose proof (rnd_nonneg (-1074) (a + b) ltac:(lia)) as Hnn.
  destruct X as [s1|s1| |s1 m1 e1], Y as [s2|s2| |s2 m2 e2];
    cbn [M] in *; try congruence; try lia; cbn [SFadd].
  - destruct s1, s2; (split; [discriminate|]); cbn [M]; exact Hnn.
  - split; [discriminate|]. cbn [M]. rewrite <- HrY.
    apply rnd_mono; lia.
  - split; [discriminate|]. cbn [M]. rewrite <- HrX.
    apply rnd_mono; lia.
  - destruct (valid_finite_bounds _ _ _ HvX) as (He1 & _).
    destruct (valid_finite_bounds _ _ _ HvY) as (He2 & _).
    destruct (SFadd_finite_within s1 m1 e1 s2 m2 e2) as [Hn HM];
      [lia|lia|].
    cbn [SFadd] in Hn, HM. split; [exact Hn|].
    etransitivity; [exact HM|]. apply rnd_mono; lia.
Qed.
End Within.

Lemma within_sub X Y a b :
  valid_binary X = true -> valid_binary Y = true ->
  a < INF -> b < INF -> within X a -> within Y b ->
  within (SFsub prec emax X Y) (radd a b).
Proof.
  intros HvX HvY Ha Hb HX HY. rewrite SFsub_add_opp.
  apply within_add; try assumption.
  - destruct Y; exact HvY.
  - apply within_opp. exact HY.
Qed.

Section WithinPrim.
Variables x y : float.

Lemma withinf_mul a b :
  a < INF -> b < INF -> withinf x a -> withinf y b ->
  withinf (x * y) (rmul a b).
Proof.
  unfold withinf. rewrite mul_spec. apply within_mul; apply Prim2SF_valid.
Qed.

Lemma withinf_add a b :
  a < INF -> b < INF -> withinf x a -> withinf y b ->
  withinf (x + y) (radd a b).
Proof.
  unfold withinf. rewrite add_spec. apply within_add; apply Prim2SF_valid.
Qed.

Lemma withinf_sub a b :
  a < INF -> b < INF -> withinf x a -> withinf y b ->
  withinf (x - y) (radd a b).
Proof.
  unfold withinf. rewrite sub_spec. apply within_sub; apply Prim2SF_valid.
Qed.
End WithinPrim.

(** What [binary_round_aux] returns is at most one unit of the kept
    mantissa above the truncated value, as long as that stays in range. *)
Lemma round_aux_upper s m e l :
  0 < m ->
  let k := Z.max 0 (fexp64 (Zdigits2 m + e) - e) in
  (m / 2 ^ k + 1) * 2 ^ (e + k + 1074) < 2 ^ 2045 ->
  let R := binary_round_aux prec emax s m e l in
  R <> S754_nan /\ sb R = s
  /\ M R <= (m / 2 ^ k + 1) * 2 ^ (e + k + 1074).
Proof.
  intros Hm k HB R. unfold R, binary_round_aux.
  destruct (shr_fexp_m m e l ltac:(lia)) as [Hm1 He1].
  fold k in Hm1, He1.
  destruct (shr_fexp prec emax m e l) as [rec1 e1].
  cbn [fst snd] in Hm1, He1.
  pose proof (round_nearest_even_bounds (shr_m rec1)
                (loc_of_shr_record rec1)) as Hr.
  set (m2 := round_nearest_even (shr_m rec1) (loc_of_shr_record rec1)) in *.
  assert (Hk : 0 <= k) by (unfold k; lia).
  assert (Hm1nn : 0 <= m / 2 ^ k)
    by (apply Z.div_pos; [lia|apply pow2_pos; exact Hk]).
  rewrite Hm1 in Hr.
  destruct (shr_fexp_m m2 e1 loc_Exact ltac:(lia)) as [Hm3 He3].
  set (n := Z.max 0 (fexp64 (Zdigits2 m2 + e1) - e1)) in *.
  destruct (shr_fexp prec emax m2 e1 loc_Exact) as [rec2 e2].
  cbn [fst snd] in Hm3, He3.
  assert (Hn : 0 <= n) by (unfold n; lia).
  assert (He1lo : -1074 <= e1) by (unfold k, fexp64 in *; lia).
  pose proof (pow2_pos n Hn) as Hpn.
  pose proof (Z.mul_div_le m2 (2 ^ n) Hpn) as Hdiv.
  pose proof (Z.div_pos m2 (2 ^ n) ltac:(lia) Hpn) as Hnn.
  rewrite Hm3. subst e1.
  set (B := (m / 2 ^ k + 1) * 2 ^ (e + k + 1074)) in *.
  assert (Hval : m2 / 2 ^ n * 2 ^ (e2 + 1074) <= B).
  { rewrite He3. replace (e + k + n + 1074) with (n + (e + k + 1074)) by lia.
    rewrite Z.pow_add_r by lia. unfold B.
    pose proof (pow2_pos (e + k + 1074) ltac:(lia)) as Hp.
    set (P := 2 ^ (e + k + 1074)) in *. set (Q := 2 ^ n) in *.
    set (m3 := m2 / Q) in *. set (m1 := m / 2 ^ k) in *.
    clearbody P Q m3 m1. nia. }
  destruct (m2 / 2 ^ n) as [|p|p]; [| |lia].
  - split; [discriminate|]. split; [reflexivity|]. cbn [M]. exact Hval.
  - destruct (e2 <=? emax - prec) eqn:Hov.
    + split; [discriminate|]. split; [reflexivity|]. cbn [M]. exact Hval.
    + exfalso. apply Z.leb_gt in Hov. change (emax - prec) with 971 in Hov.
      assert (Hbig : 2 ^ 2045 < 2 ^ (e2 + 1074))
        by (apply Z.pow_lt_mono_r; lia).
      pose proof (pow2_pos 2045 ltac:(lia)).
      clearbody B. hide_pows. nia.
Qed.

(** The square root of a non-negative value of at most [1/8] is below
    2. *)
Lemma SFsqrt_small mx ex :
  valid_binary (S754_finite false mx ex) = true ->
  Zpos mx * 2 ^ (ex + 1074) <= eighth ->
  let R := SFsqrt prec emax (S754_finite false mx ex) in
  R <> S754_nan /\ sb R = false /\ M R < two.
Proof.
  intros Hv HM R.
  destruct (valid_finite_bounds _ _ _ Hv) as (He & Hmx & _).
  assert (Hex : ex <= -3).
  { destruct (Z_le_gt_dec ex (-3)) as [Hle|Hgt]; [exact Hle|exfalso].
    assert (2 ^ 1072 <= 2 ^ (ex + 1074)) by (apply Z.pow_le_mono_r; lia).
    assert (eighth < 2 ^ 1072)
      by (unfold eighth; apply Z.pow_lt_mono_r; lia).
    pose proof (pow2_pos (ex + 1074) ltac:(lia)).
    set (P := 2 ^ (ex + 1074)) in *. set (Q := 2 ^ 1072) in *.
    clearbody P Q. nia. }
  unfold R, SFsqrt, SFsqrt_core_binary. rewrite fexp_eq.
  pose proof (Z.div2_odd ex) as Hodd.
  assert (Hb : 0 <= Z.b2z (Z.odd ex) <= 1)
    by (destruct (Z.odd ex); cbn [Z.b2z]; lia).
  set (h := Z.div2 ex) in *.
  set (e' := Z.min (fexp64 (Z.div2 (Zdigits2 (Zpos mx) + ex + 1))) h).
  assert (He' : -1074 <= e' /\ 2 * e' <= ex /\ e' <= -2)
    by (unfold e', fexp64; lia).
  set (sh := ex - 2 * e') in *.
  assert (Hsh : 0 <= sh) by (unfold sh; lia).
  assert (Hm' : match sh with
                | Zpos _ => Z.shiftl (Zpos mx) sh
                | Z0 => Zpos mx
                | Zneg _ => 0
                end = Zpos mx * 2 ^ sh).
  { destruct sh; try lia. apply Z.shiftl_mul_pow2. lia. }
  rewrite Hm'. set (m' := Zpos mx * 2 ^ sh) in *.
  assert (Hm'pos : 0 < m').
  { unfold m'. pose proof (pow2_pos sh Hsh). nia. }
  pose proof (Z.sqrtrem_spec m' ltac:(lia)) as Hsq.
  destruct (Z.sqrtrem m') as [q r]. destruct Hsq as [Hsq Hr].
  assert (Hq : 0 < q) by nia.
  set (l := if r =? 0 then loc_Exact
            else loc_Inexact (if r <=? q then Lt else Gt)).
  (* the truncated root is below 1/2 *)
  assert (Hroot : q * 2 ^ (e' + 1074) < 2 ^ 1073).
  { assert (Hpow : 2 ^ sh * (2 ^ (e' + 1074) * 2 ^ (e' + 1074))
                   = 2 ^ (ex + 1074) * 2 ^ 1074).
    { rewrite <- !Z.pow_add_r by lia. f_equal. unfold sh. lia. }
    assert (Hhalf : 2 ^ 1073 * 2 ^ 1073 = 2 * (eighth * 2 ^ 1074)).
    { unfold eighth. change 2 with (2 ^ 1) at 5.
      rewrite <- !Z.pow_add_r by lia. reflexivity. }
    pose proof (pow2_pos (e' + 1074) ltac:(lia)) as Hp1.
    pose proof (pow2_pos 1074 ltac:(lia)) as Hp2.
    pose proof (pow2_pos 1073 ltac:(lia)) as Hp3.
    pose proof (pow2_pos sh Hsh) as Hp4.
    pose proof (pow2_pos (ex + 1074) ltac:(lia)) as Hp5.
    unfold m' in Hsq.
    set (P := 2 ^ (e' + 1074)) in *. set (T := 2 ^ 1073) in *.
    set (U := 2 ^ 1074) in *. set (S := 2 ^ sh) in *.
    set (V := 2 ^ (ex + 1074)) in *.
    clearbody P T U S V.
    destruct (Z_lt_le_dec (q * P) T) as [Hlt|Hge]; [exact Hlt|exfalso].
    assert (T * T <= (q * P) * (q * P)) by nia.
    assert (q * q * (P * P) <= Zpos mx * S * (P * P)) by nia.
    assert (Zpos mx * S * (P * P) = Zpos mx * V * U) by nia.
    assert (Zpos mx * V * U <= eighth * U) by nia.
    nia. }
  set (k := Z.max 0 (fexp64 (Zdigits2 q + e') - e')).
  assert (Hunit : 2 ^ (e' + k + 1074) <= 2 ^ 1072).
  { apply Z.pow_le_mono_r; [lia|].
    destruct (Zdigits2_spec q Hq) as [Hd1 [Hd2 _]].
    assert (Hdq : Zdigits2 q + e' <= 0).
    { destruct (Z_le_gt_dec (Zdigits2 q + e') 0) as [Hle|Hgt];
        [exact Hle|exfalso].
      assert (2 ^ 1073 <= 2 ^ (Zdigits2 q - 1 + (e' + 1074)))
        by (apply Z.pow_le_mono_r; lia).
      rewrite Z.pow_add_r in H by lia.
      pose proof (pow2_pos (e' + 1074) ltac:(lia)).
      set (P := 2 ^ (e' + 1074)) in *. set (T := 2 ^ 1073) in *.
      set (D := 2 ^ (Zdigits2 q - 1)) in *.
      clearbody P T D. nia. }
    unfold k, fexp64. lia. }
  assert (Hk : 0 <= k) by (unfold k; lia).
  assert (Hbound : (q / 2 ^ k + 1) * 2 ^ (e' + k + 1074) < two).
  { pose proof (pow2_pos k Hk) as Hpk.
    pose proof (Z.mul_div_le q (2 ^ k) Hpk) as Hdiv.
    replace (e' + k + 1074) with (k + (e' + 1074)) in * by lia.
    rewrite Z.pow_add_r in * by lia.
    assert (Htwo : two = 4 * 2 ^ 1073 /\ 2 ^ 1073 = 2 * 2 ^ 1072).
    { unfold two. split.
      - change 4 with (2 ^ 2). rewrite <- Z.pow_add_r by lia. reflexivity.
      - change 2 with (2 ^ 1) at 2. rewrite <- Z.pow_add_r by lia.
        reflexivity. }
    destruct Htwo as [-> Hhalf].
    pose proof (pow2_pos (e' + 1074) ltac:(lia)) as Hp1.
    pose proof (pow2_pos 1072 ltac:(lia)) as Hp2.
    set (P := 2 ^ (e' + 1074)) in *. set (T := 2 ^ 1073) in *.
    set (Q := 2 ^ 1072) in *. set (K := 2 ^ k) in *.
    set (q1 := q / K) in *.
    clearbody P T Q K q1. nia. }
  destruct (round_aux_upper false q e' l Hq) as (Hn & Hs & HMR).
  { fold k. etransitivity; [exact Hbound|].
    unfold two. apply Z.pow_lt_mono_r; lia. }
  fold k in HMR. split; [exact Hn|]. split; [exact Hs|]. lia.
Qed.

(** [x <= c] between positive finite values. *)
Lemma SFleb_finite m1 e1 m2 e2 :
  valid_binary (S754_finite false m1 e1) = true ->
  valid_binary (S754_finite false m2 e2) = true ->
  SFleb (S754_finite false m1 e1) (S754_finite false m2 e2) = true ->
  Zpos m1 * 2 ^ (e1 + 1074) <= Zpos m2 * 2 ^ (e2 + 1074).
Proof.
  intros H1 H2. unfold SFleb. cbn [SFcompare].
  destruct (valid_finite_bounds _ _ _ H1) as (He1 & Hm1 & _).
  destruct (valid_finite_bounds _ _ _ H2) as (He2 & Hm2 & Hn2).
  destruct (Z.compare_spec e1 e2) as [->|Hee|Hee]; try discriminate.
  - rewrite Pos.compare_cont_spec.
    destruct (Pos.compare_spec m1 m2) as [->|Hmm|Hmm]; cbn [Pos.switch_Eq];
      try discriminate.
    + intros _. lia.
    + intros _. apply Z.mul_le_mono_nonneg_r; [apply Z.pow_nonneg|]; lia.
  - intros _. apply Z.lt_le_incl.
    apply Z.lt_le_trans with (2 ^ (53 + (e1 + 1074))).
    + apply (pow2_mul_lt _ 53); lia.
    + apply (pow2_mul_ge _ 52); lia.
Qed.

Lemma eighth_pos : 0 < eighth.
Proof. apply pow2_pos. lia. Qed.

Lemma eighth_lt_INF : eighth < INF.
Proof. apply Z.pow_lt_mono_r; lia. Qed.

Lemma quarter_lt_INF : quarter < INF.
Proof. apply Z.pow_lt_mono_r; lia. Qed.

(** [|x| <= 0.125]. *)
Lemma abs_le_eighth x :
  (abs x <=? 0.125)%float = true -> withinf x eighth.
Proof.
  rewrite leb_spec, abs_spec. unfold withinf, within.
  pose proof (Prim2SF_valid x) as Hv. pose proof eighth_pos.
  change (Prim2SF 0.125) with (S754_finite false 4503599627370496 (-55)).
  destruct (Prim2SF x) as [s|s| |s m e]; cbn [SFabs M]; try discriminate.
  - intros _. split; [discriminate|lia].
  - intros H'. split; [discriminate|].
    apply SFleb_finite in H'; [|exact Hv|reflexivity].
    assert (Heq : eighth = Z.pos 4503599627370496 * 2 ^ (-55 + 1074))
      by (vm_compute; reflexivity).
    rewrite Heq. exact H'.
Qed.

Lemma within_weaken X a b : a <= b -> within X a -> within X b.
Proof. intros Hab [Hn HM]. split; [exact Hn|lia]. Qed.

(** The square root of a sum of squares of at most [1/8] is below 2. *)
Lemma sqrt_lt_2 x :
  UBf false x eighth -> (PrimFloat.sqrt x <? 2)%float = true.
Proof.
  unfold UBf. intros (Hn & Hs & HM). rewrite ltb_spec.
  pose proof (Prim2SF_valid (PrimFloat.sqrt x)) as HvR.
  rewrite sqrt_spec in *.
  pose proof (Prim2SF_valid x) as Hv.
  change (Prim2SF 2) with (S754_finite false 4503599627370496 (-51)).
  assert (Htwo : two = Z.pos 4503599627370496 * 2 ^ (-51 + 1074))
    by (vm_compute; reflexivity).
  pose proof eighth_lt_INF.
  destruct (Prim2SF x) as [s|s| |s m e]; cbn [sb M] in *; subst;
    try congruence; try lia.
  - reflexivity.
  - destruct (SFsqrt_small m e Hv HM) as (HnR & HsR & HMR).
    unfold SF64sqrt in *.
    destruct (SFsqrt prec emax (S754_finite false m e)) as [s'|s'| |s' m' e'];
      cbn [sb M] in *; subst; try congruence.
    + reflexivity.
    + exfalso. assert (two < INF) by (apply Z.pow_lt_mono_r; lia). lia.
    + destruct (SFltb (S754_finite false m' e')
                      (S754_finite false 4503599627370496 (-51))) eqn:Hlt;
        [reflexivity|exfalso].
      apply SFltb_finite_ge in Hlt; [|exact HvR|reflexivity].
      rewrite <- Htwo in Hlt. lia.
Qed.

Lemma quarter_checked :
  radd (rmul quarter quarter) (rmul quarter quarter) <= eighth
  /\ radd (radd (rmul quarter quarter) (rmul quarter quarter)) eighth
     <= quarter
  /\ rmul quarter quarter < INF
  /\ radd (rmul quarter quarter) (rmul quarter quarter) < INF.
Proof.
  repeat split; first [apply Z.leb_le | apply Z.ltb_lt];
    vm_compute; reflexivity.
Qed.

Lemma zero_withinf : withinf 0 quarter.
Proof.
  split; [discriminate|]. cbn [M]. apply Z.lt_le_incl, pow2_pos. lia.
Qed.

(** [!(|x| < c)] for a positive finite [c]: [x] is NaN, or at least [c]
    in magnitude. *)
Lemma abs_not_lt x c mc ec :
  Prim2SF c = S754_finite false mc ec ->
  (abs x <? c)%float = false ->
  LBf (sb (Prim2SF x)) x (Zpos mc * 2 ^ (ec + 1074)).
Proof.
  intros Hc. rewrite ltb_spec, abs_spec, Hc. unfold LBf.
  pose proof (Prim2SF_valid x) as Hv.
  pose proof (Prim2SF_valid c) as Hvc. rewrite Hc in Hvc.
  destruct (Prim2SF x) as [s|s| |s m e]; cbn [SFabs sb].
  - discriminate.
  - intros _. right. split; [reflexivity|].
    pose proof (M_finite_lt_INF _ _ _ Hvc) as Hlt. cbn [M] in *. lia.
  - intros _. left. reflexivity.
  - intros H. right. split; [reflexivity|].
    apply SFltb_finite_ge in H; [|exact Hv|exact Hvc].
    cbn [M]. exact H.
Qed.

Lemma abs_not_lt_two x :
  (abs x <? 2)%float = false -> LBf (sb (Prim2SF x)) x two.
Proof.
  intros H. apply (abs_not_lt x 2 4503599627370496 (-51)) in H;
    [|reflexivity].
  assert (Htwo : two = Z.pos 4503599627370496 * 2 ^ (-51 + 1074))
    by (vm_compute; reflexivity).
  rewrite Htwo. exact H.
Qed.

Lemma abs_not_lt_far x :
  (abs x <? 2.25)%float = false -> LBf (sb (Prim2SF x)) x far.
Proof.
  intros H. apply (abs_not_lt x 2.25 5066549580791808 (-51)) in H;
    [|reflexivity].
  assert (Hfar : far = Z.pos 5066549580791808 * 2 ^ (-51 + 1074))
    by (vm_compute; reflexivity).
  rewrite Hfar. exact H.
Qed.

Lemma LB_abs s X a : LB s X a -> LB false (SFabs X) a.
Proof.
  intros [->|[_ H]]; [left; reflexivity|].
  right. destruct X; cbn [SFabs sb M] in *; auto.
Qed.

(** [|x| < 2.25] fails once [x] is NaN or at least 2.25 in magnitude. *)
Lemma far_coordinate x s a :
  far <= a -> LBf s x a -> (abs x <? 2.25)%float = false.
Proof.
  intros Ha H. rewrite ltb_spec, abs_spec.
  change (Prim2SF 2.25) with (S754_finite false 5066549580791808 (-51)).
  apply SFltb_false.
  - rewrite <- abs_spec. apply Prim2SF_valid.
  - reflexivity.
  - apply LB_abs with (s := s). apply (LB_weaken _ _ a); [|exact H].
    assert (Hfar : M (S754_finite false 5066549580791808 (-51)) = far)
      by (vm_compute; reflexivity).
    rewrite Hfar. exact Ha.
Qed.

(** [x <= c] holds between positive finite values once the magnitudes
    say so. *)
Lemma SFleb_finite_true m1 e1 m2 e2 :
  valid_binary (S754_finite false m1 e1) = true ->
  valid_binary (S754_finite false m2 e2) = true ->
  Zpos m1 * 2 ^ (e1 + 1074) <= Zpos m2 * 2 ^ (e2 + 1074) ->
  SFleb (S754_finite false m1 e1) (S754_finite false m2 e2) = true.
Proof.
  intros H1 H2. unfold SFleb. cbn [SFcompare].
  destruct (valid_finite_bounds _ _ _ H1) as (He1 & Hm1 & Hn1).
  destruct (valid_finite_bounds _ _ _ H2) as (He2 & Hm2 & _).
  destruct (Z.compare_spec e1 e2) as [->|Hee|Hee]; try reflexivity.
  - rewrite Pos.compare_cont_spec.
    destruct (Pos.compare_spec m1 m2) as [->|Hmm|Hmm]; cbn [Pos.switch_Eq];
      try reflexivity.
    intros Hle. exfalso.
    pose proof (pow2_pos (e2 + 1074) ltac:(lia)). nia.
  - intros Hle. exfalso.
    assert (Zpos m2 * 2 ^ (e2 + 1074) < 2 ^ (53 + (e2 + 1074)))
      by (apply (pow2_mul_lt _ 53); lia).
    assert (2 ^ (53 + (e2 + 1074)) <= Zpos m1 * 2 ^ (e1 + 1074))
      by (apply (pow2_mul_ge _ 52); lia).
    lia.
Qed.

(** [|x| <= c] for a positive finite [c], both ways. *)
Lemma abs_le x c mc ec :
  Prim2SF c = S754_finite false mc ec ->
  (abs x <=? c)%float = true -> withinf x (Zpos mc * 2 ^ (ec + 1074)).
Proof.
  intros Hc. rewrite leb_spec, abs_spec, Hc. unfold withinf, within.
  pose proof (Prim2SF_valid x) as Hv.
  pose proof (Prim2SF_valid c) as Hvc. rewrite Hc in Hvc.
  destruct (Prim2SF x) as [s|s| |s m e]; cbn [SFabs M]; try discriminate.
  - intros _. split; [discriminate|].
    apply Z.mul_nonneg_nonneg; [lia|apply Z.pow_nonneg; lia].
  - intros H'. split; [discriminate|].
    apply SFleb_finite in H'; [exact H'|exact Hv|exact Hvc].
Qed.

Lemma within_abs_le x c mc ec :
  Prim2SF c = S754_finite false mc ec ->
  withinf x (Zpos mc * 2 ^ (ec + 1074)) -> (abs x <=? c)%float = true.
Proof.
  intros Hc. rewrite leb_spec, abs_spec, Hc. unfold withinf, within.
  pose proof (Prim2SF_valid x) as Hv.
  pose proof (Prim2SF_valid c) as Hvc. rewrite Hc in Hvc.
  pose proof (M_finite_lt_INF _ _ _ Hvc) as Hinf. cbn [M] in Hinf.
  destruct (Prim2SF x) as [s|s| |s m e]; cbn [SFabs M]; intros [Hn HM].
  - reflexivity.
  - lia.
  - congruence.
  - apply SFleb_finite_true; [exact Hv|exact Hvc|exact HM].
Qed.

Lemma quarter_value :
  quarter = Z.pos 4503599627370496 * 2 ^ (-54 + 1074).
Proof. vm_compute. reflexivity. Qed.

Lemma abs_le_quarter x :
  (abs x <=? 0.25)%float = true <-> withinf x quarter.
Proof.
  rewrite quarter_value. split.
  - apply (abs_le x 0.25). reflexivity.
  - apply (within_abs_le x 0.25). reflexivity.
Qed.

(** ** The formula [sqrt(re^2 + im^2)] meets what is assumed of
       [std::abs] *)

Lemma formula_abs_at_two : abs_at_two formula_abs.
Proof. reflexivity. Qed.

Lemma formula_abs_outside : abs_outside formula_abs.
Proof.
  intros z H. unfold formula_abs. pose proof two_pos as Hpos.
  destruct H as [H|H]; apply abs_not_lt_two in H.
  - apply (sqrt_not_lt_2 _ (radd (rmul two two) 0)); [apply two_squared|].
    apply add_LBf; [apply rmul_nonneg|lia| |apply sqr_LBf].
    apply (sqr_LBf_from (sb (Prim2SF (re z)))); [lia|exact H].
  - apply (sqrt_not_lt_2 _ (radd 0 (rmul two two))); [apply two_squared|].
    apply add_LBf; [lia|apply rmul_nonneg|apply sqr_LBf|].
    apply (sqr_LBf_from (sb (Prim2SF (im z)))); [lia|exact H].
Qed.

Lemma two_le_far : two <= far.
Proof. apply Z.leb_le. vm_compute. reflexivity. Qed.

Lemma formula_abs_far : abs_far formula_abs.
Proof.
  intros z H. unfold formula_abs. pose proof two_pos as Hpos.
  pose proof two_le_far as Hle.
  destruct H as [H|H]; apply abs_not_lt_far in H;
    apply (LB_weaken _ _ _ two Hle) in H.
  - apply (sqrt_not_lt_2 _ (radd (rmul two two) 0)); [apply two_squared|].
    apply add_LBf; [apply rmul_nonneg|lia| |apply sqr_LBf].
    apply (sqr_LBf_from (sb (Prim2SF (re z)))); [lia|exact H].
  - apply (sqrt_not_lt_2 _ (radd 0 (rmul two two))); [apply two_squared|].
    apply add_LBf; [lia|apply rmul_nonneg|apply sqr_LBf|].
    apply (sqr_LBf_from (sb (Prim2SF (im z)))); [lia|exact H].
Qed.

Lemma formula_abs_inside : abs_inside formula_abs.
Proof.
  intros z Hre Him. apply abs_le_quarter in Hre, Him.
  unfold formula_abs. apply sqrt_lt_2.
  destruct quarter_checked as (Hsum & _ & Hsq & _).
  pose proof quarter_lt_INF as Hq.
  assert (Hw : withinf (re z * re z + im z * im z)
                 (radd (rmul quarter quarter) (rmul quarter quarter))).
  { apply withinf_add; [exact Hsq|exact Hsq| |];
      apply withinf_mul; assumption. }
  assert (Hl : LBf false (re z * re z + im z * im z) (radd 0 0)).
  { apply add_LBf; [lia|lia|apply sqr_LBf|apply sqr_LBf]. }
  destruct Hw as [Hn HM]. split; [exact Hn|]. split; [|lia].
  destruct Hl as [Hl|[Hl _]]; [contradiction|exact Hl].
Qed.

(** The square forgets the sign. *)
Lemma abs_eq_square y y' :
  abs y' = abs y -> (y' * y')%float = (y * y)%float.
Proof.
  intros H. apply (f_equal Prim2SF) in H. rewrite !abs_spec in H.
  apply Prim2SF_inj. rewrite !mul_spec.
  destruct (Prim2SF y) as [s|s| |s m e], (Prim2SF y') as [s'|s'| |s' m' e'];
    cbn [SFabs] in H; try discriminate; cbn [SFmul].
  - destruct s, s'; reflexivity.
  - destruct s, s'; reflexivity.
  - reflexivity.
  - injection H as -> ->. destruct s, s'; reflexivity.
Qed.

Lemma formula_abs_even : abs_even formula_abs.
Proof.
  intros z z' Hre Him. unfold formula_abs.
  rewrite Hre, (abs_eq_square _ _ Him). reflexivity.
Qed.

(** ** Three steps to the right of 1 *)

Lemma x2_lb_nonneg r b : 0 <= x2_lb r b.
Proof. unfold x2_lb. apply radd_nonneg. Qed.
Lemma y2_lb_nonneg r a : 0 <= y2_lb r a.
Proof. unfold y2_lb. apply radd_nonneg. Qed.

Section Iterates.
Variables cr ci : float.

Lemma second_iterate :
  cadd (cmul (cadd (cmul (Complex 0 0) (Complex 0 0)) (Complex cr ci))
             (cadd (cmul (Complex 0 0) (Complex 0 0)) (Complex cr ci)))
       (Complex cr ci)
  = Complex (second_re cr ci) (second_im cr ci).
Proof. reflexivity. Qed.

Lemma third_iterate :
  cadd (cmul (Complex (second_re cr ci) (second_im cr ci))
             (Complex (second_re cr ci) (second_im cr ci)))
       (Complex cr ci)
  = Complex (third_re cr ci) (third_im cr ci).
Proof. reflexivity. Qed.

(** The second iterate, for [re c >= r]. *)
Section SecondIterate.
Variable r : Z.
Hypothesis Hr : 0 <= r.
Hypothesis Hre : LBf false cr r.

Lemma re1_LB : LBf false (first_re cr) (radd 0 r).
Proof.
  unfold first_re.
  apply add_LBf; [lia|exact Hr|apply zero_LBf|exact Hre].
Qed.

Lemma x2_LB s b :
  b < INF -> rmul b b < rmul (radd 0 r) (radd 0 r) ->
  UBf s (first_im ci) b ->
  LBf false (second_re cr ci) (x2_lb r b).
Proof.
  intros Hb Hlt Him.
  pose proof (radd_nonneg 0 r). pose proof (rmul_nonneg b b).
  unfold second_re, x2_lb.
  apply add_LBf; [apply rsub_nonneg|exact Hr| |exact Hre].
  apply sub_LBf; [assumption|assumption| |].
  - change false with (xorb false false).
    apply mul_LBf; try assumption; apply re1_LB.
  - replace false with (xorb s s) by (destruct s; reflexivity).
    apply mul_UBf; assumption.
Qed.

Lemma y2_LB s a :
  0 <= a -> LBf s (first_im ci) a -> LBf s ci a ->
  LBf s (second_im cr ci) (y2_lb r a).
Proof.
  intros Ha Him1 Him.
  pose proof (radd_nonneg 0 r).
  unfold second_im, y2_lb.
  apply add_LBf; [apply radd_nonneg|assumption| |exact Him].
  apply add_LBf; [apply rmul_nonneg|apply rmul_nonneg| |].
  - change s with (xorb false s).
    apply mul_LBf; try assumption. apply re1_LB.
  - replace s with (xorb s false) at 1 by (destruct s; reflexivity).
    apply mul_LBf; try assumption. apply re1_LB.
Qed.
End SecondIterate.

(** [|im z2|] from above. *)
Lemma y2_within ru b :
  ru < INF -> b < INF -> rmul ru b < INF ->
  radd (rmul ru b) (rmul b ru) < INF ->
  withinf (first_re cr) ru -> withinf (first_im ci) b -> withinf ci b ->
  withinf (second_im cr ci) (y2_ub ru b).
Proof.
  intros Hru Hb Hp Hs Hre1 Him1 Him.
  assert (Hp' : rmul b ru < INF)
    by (unfold rmul in *; rewrite (Z.mul_comm b ru); exact Hp).
  unfold second_im, y2_ub.
  apply withinf_add; [exact Hs|exact Hb| |exact Him].
  apply withinf_add; [exact Hp|exact Hp'| |];
    apply withinf_mul; assumption.
Qed.

(** The third iterate, from bounds on the second. *)
Lemma y3_LB s x y a :
  0 <= x -> 0 <= y -> 0 <= a ->
  LBf false (second_re cr ci) x -> LBf s (second_im cr ci) y ->
  LBf s ci a ->
  LBf s (third_im cr ci) (y3_lb x y a).
Proof.
  intros Hx Hy Ha Hre2 Him2 Him.
  unfold third_im, y3_lb.
  apply add_LBf; [apply radd_nonneg|exact Ha| |exact Him].
  apply add_LBf; [apply rmul_nonneg|apply rmul_nonneg| |].
  - change s with (xorb false s). apply mul_LBf; assumption.
  - replace s with (xorb s false) at 1 by (destruct s; reflexivity).
    apply mul_LBf; assumption.
Qed.

Lemma x3_LB x y r :
  0 <= x -> 0 <= r -> y < INF -> rmul y y < rmul x x ->
  LBf false (second_re cr ci) x -> withinf (second_im cr ci) y ->
  LBf false cr r ->
  LBf false (third_re cr ci) (x3_lb x y r).
Proof.
  intros Hx Hr Hy Hlt Hre2 Him2 Hre.
  pose proof (rmul_nonneg y y).
  unfold third_re, x3_lb.
  apply add_LBf; [apply rsub_nonneg|exact Hr| |exact Hre].
  apply sub_LBf; [assumption|assumption| |].
  - change false with (xorb false false). apply mul_LBf; assumption.
  - apply within_UB in Him2.
    replace false with (xorb (sb (Prim2SF (second_im cr ci)))
                             (sb (Prim2SF (second_im cr ci))))
      by (destruct (sb _); reflexivity).
    apply mul_UBf; assumption.
Qed.
End Iterates.

(** [|im c| >= 0.75]: the imaginary part of [z2] is at least 2.25. *)
Lemma far_checked : far <= y2_lb one im_far.
Proof. apply Z.leb_le. vm_compute. reflexivity. Qed.

(** [0.3125 <= |im c| <= 0.75]: the imaginary part of [z3] is. *)
Lemma middle_checked :
  rmul im_far im_far < rmul (radd 0 one) (radd 0 one)
  /\ far <= y3_lb (x2_lb one im_far) (y2_lb one im_near) im_near.
Proof.
  split; first [apply Z.leb_le | apply Z.ltb_lt]; vm_compute; reflexivity.
Qed.

(** [|im c| <= 0.3125] and [re c >= 1.5]: the real part of [z2] is. *)
Lemma right_checked :
  rmul im_near im_near < rmul (radd 0 re_split) (radd 0 re_split)
  /\ far <= x2_lb re_split im_near.
Proof.
  split; first [apply Z.leb_le | apply Z.ltb_lt]; vm_compute; reflexivity.
Qed.

(** [|im c| <= 0.3125] and [1 <= re c <= 1.5]: the real part of [z3]
    is. *)
Lemma near_checked :
  rmul im_near im_near < rmul (radd 0 one) (radd 0 one)
  /\ rmul (y2_ub re_split im_near) (y2_ub re_split im_near)
     < rmul (x2_lb one im_near) (x2_lb one im_near)
  /\ far <= x3_lb (x2_lb one im_near) (y2_ub re_split im_near) one.
Proof.
  repeat split; first [apply Z.leb_le | apply Z.ltb_lt];
    vm_compute; reflexivity.
Qed.

Lemma cut_values :
  0 < im_near /\ im_near < im_far /\ im_far < INF /\ im_far < TOP
  /\ 0 <= one /\ one <= re_split /\ re_split < INF /\ re_split < TOP
  /\ rmul re_split im_near < INF
  /\ radd (rmul re_split im_near) (rmul im_near re_split) < INF
  /\ y2_ub re_split im_near < INF.
Proof.
  repeat split; first [apply Z.leb_le | apply Z.ltb_lt];
    vm_compute; reflexivity.
Qed.

(** A point with real part above 1 has a coordinate of magnitude 2.25 or
    more (or NaN) after two steps, or after three. *)
Lemma third_iterate_far cr ci :
  (1 <? cr)%float = true ->
  ((abs (second_re cr ci) <? 2.25)%float = false
   \/ (abs (second_im cr ci) <? 2.25)%float = false)
  \/ ((abs (third_re cr ci) <? 2.25)%float = false
      \/ (abs (third_im cr ci) <? 2.25)%float = false).
Proof.
  intros Hlt. apply ltb_one_LBf in Hlt.
  destruct cut_values
    as (Hn0 & Hnf & HfI & HfT & H1 & H1s & HsI & HsT & Hp & Hs & Hy).
  assert (Hadd : Prim2SF (0 + ci)
                 = SFadd prec emax (S754_zero false) (Prim2SF ci))
    by (rewrite add_spec; reflexivity).
  pose proof (SFadd_zero_l (Prim2SF ci)) as Hz. rewrite <- Hadd in Hz.
  set (IM := Prim2SF (0 + ci)) in *.
  assert (Hsame : forall a, 0 < a -> LB (sb IM) IM a ->
                  LB (sb IM) (Prim2SF ci) a).
  { intros a Ha HLB. destruct Hz as [<-|[_ Hz]]; [exact HLB|].
    rewrite Hz in HLB. destruct HLB as [HLB|[_ HLB]]; [discriminate|].
    cbn [M] in HLB. lia. }
  destruct (Z_le_gt_dec im_far (M IM)) as [Hbig|Hsmall].
  - (* NaN, or far from the real axis: the imaginary part of z2 *)
    assert (HLB : LB (sb IM) IM im_far)
      by (right; split; [reflexivity|lia]).
    left. right.
    apply (far_coordinate _ (sb IM) (y2_lb one im_far)).
    + exact far_checked.
    + apply y2_LB; [exact H1|exact Hlt|lia|exact HLB|].
      apply Hsame; [lia|exact HLB].
  - assert (Hnan : IM <> S754_nan).
    { intros Heq. rewrite Heq in Hsmall. cbn [M] in Hsmall. lia. }
    destruct (Z_le_gt_dec im_near (M IM)) as [Hmid|Hnear].
    + (* the imaginary part of z3 *)
      destruct middle_checked as [Hsq Hfar].
      assert (HLB : LB (sb IM) IM im_near)
        by (right; split; [reflexivity|lia]).
      right. right.
      apply (far_coordinate _ (sb IM)
               (y3_lb (x2_lb one im_far) (y2_lb one im_near) im_near));
        [exact Hfar|].
      apply y3_LB; [apply x2_lb_nonneg|apply y2_lb_nonneg|lia| | |].
      * apply (x2_LB cr ci one H1 Hlt (sb IM)); [exact HfI|exact Hsq|].
        split; [exact Hnan|]. split; [reflexivity|].
        change (M IM <= im_far). lia.
      * apply y2_LB; [exact H1|exact Hlt|lia|exact HLB|].
        apply Hsame; [lia|exact HLB].
      * apply Hsame; [lia|exact HLB].
    + (* next to the real axis *)
      assert (HUB : UBf (sb IM) (first_im ci) im_near).
      { split; [exact Hnan|]. split; [reflexivity|].
        change (M IM <= im_near). lia. }
      destruct (Z_le_gt_dec re_split (M (Prim2SF cr))) as [Hright|Hleft].
      * (* the real part of z2 *)
        destruct right_checked as [Hsq Hfar].
        assert (Hre : LBf false cr re_split).
        { destruct Hlt as [Hlt|[Hs0 _]]; [left; exact Hlt|].
          right. split; [exact Hs0|exact Hright]. }
        left. left.
        apply (far_coordinate _ false (x2_lb re_split im_near));
          [exact Hfar|].
        apply (x2_LB cr ci re_split ltac:(lia) Hre (sb IM));
          [lia|exact Hsq|exact HUB].
      * (* the real part of z3 *)
        destruct near_checked as (Hsq & Hsq3 & Hfar).
        assert (Hcr : Prim2SF cr <> S754_nan).
        { intros Heq. rewrite Heq in Hleft. cbn [M] in Hleft. lia. }
        assert (Hre1 : withinf (first_re cr) re_split).
        { unfold withinf, first_re. rewrite add_spec.
          change (Prim2SF 0) with (S754_zero false).
          destruct (SFadd_zero_l (Prim2SF cr)) as [Heq|[_ Heq]];
            unfold SF64add; rewrite Heq.
          - split; [exact Hcr|lia].
          - split; [discriminate|]. cbn [M]. lia. }
        assert (Him1 : withinf (first_im ci) im_near).
        { split; [exact Hnan|]. change (M IM <= im_near). lia. }
        assert (Him : withinf ci im_near).
        { unfold withinf. destruct Hz as [Heq|[Heq _]].
          - rewrite <- Heq. exact Him1.
          - rewrite Heq. split; [discriminate|]. cbn [M]. lia. }
        right. left.
        apply (far_coordinate _ false
                 (x3_lb (x2_lb one im_near) (y2_ub re_split im_near) one));
          [exact Hfar|].
        apply x3_LB; [apply x2_lb_nonneg|exact H1|exact Hy|exact Hsq3| |
                      |exact Hlt].
        -- apply (x2_LB cr ci one H1 Hlt (sb IM)); [lia|exact Hsq|exact HUB].
        -- apply y2_within; [exact HsI|lia|exact Hp|exact Hs
                            |exact Hre1|exact Him1|exact Him].
Qed.

Section RightOfOne.
Variable std_abs : complex -> float.
Variable c : complex.
Variable m : Z.

(** Where the test [|z| < 2.0] fails the loop returns its counter. *)
Lemma mandelbrot_loop_stops fuel z count :
  (std_abs z <? 2)%float = false ->
  mandelbrot_loop std_abs fuel c z count m = count.
Proof.
  intros H. destruct fuel as [|fuel]; [reflexivity|].
  rewrite mandelbrot_loop_unfold, H. reflexivity.
Qed.

(** A bound on the loop entered one round later bounds the loop. *)
Lemma mandelbrot_loop_le_next b fuel z count :
  count <= b ->
  (forall fuel', mandelbrot_loop std_abs fuel' c (cadd (cmul z z) c)
                                 (count + 1) m <= b) ->
  mandelbrot_loop std_abs fuel c z count m <= b.
Proof.
  intros Hc Hnext. destruct fuel as [|fuel]; [exact Hc|].
  rewrite mandelbrot_loop_unfold.
  destruct (_ && _); [apply Hnext|exact Hc].
Qed.
End RightOfOne.

(** With the real part above 1 the loop runs three rounds at most. *)
Lemma mandelbrot_right_of_one_le_3
    (std_abs : complex -> float) (real imag : float) (m : Z) :
  abs_far std_abs ->
  (1 <? real)%float = true -> mandelbrot std_abs real imag m <= 3.
Proof.
  intros Hfar Hre. unfold mandelbrot.
  apply mandelbrot_loop_le_next; [lia|]. intros fuel1.
  apply mandelbrot_loop_le_next; [lia|]. intros fuel2.
  rewrite second_iterate. cbn [Z.add Pos.add Pos.succ].
  destruct (third_iterate_far real imag Hre) as [H2|H3].
  - rewrite mandelbrot_loop_stops; [lia|]. apply Hfar. exact H2.
  - apply mandelbrot_loop_le_next; [lia|]. intros fuel3.
    rewrite third_iterate.
    rewrite mandelbrot_loop_stops; [lia|]. apply Hfar. exact H3.
Qed.

(** C6: for every [double] pair with [real > 1.0],
    [mandelbrot(real, imag, 1000)] is below 1000, in fact at most 3; and
    for every [maxIterations >= 1], [mandelbrot(2.0, 0.0, maxIterations)]
    is exactly 1: after one step [z = 2], of magnitude exactly 2, and the
    strict test [|z| < 2.0] fails.  Of [std::abs] this uses that the
    magnitude of [0] is below 2, that the magnitude of [2 + 0i] is not,
    and that the magnitude of a point with a coordinate of 2.25 or more
    (or NaN) is not. *)
Theorem mandelbrot_right_of_one_escapes
    (std_abs : complex -> float) (real imag : float) (m : Z) :
  abs_origin std_abs -> abs_at_two std_abs -> abs_far std_abs ->
  (1 <? real)%float = true -> 1 <= m ->
  mandelbrot std_abs real imag 1000 < 1000
  /\ mandelbrot std_abs real imag 1000 <= 3
  /\ mandelbrot std_abs 2 0 m = 1.
Proof.
  intros Horigin Htwo Hfar Hre Hm.
  pose proof (mandelbrot_right_of_one_le_3 std_abs real imag 1000 Hfar Hre)
    as H3.
  split; [lia|]. split; [exact H3|].
  apply mandelbrot_two; assumption.
Qed.

Lemma mandelbrot_right_of_one_escapes_witness :
  abs_origin formula_abs /\ abs_at_two formula_abs /\ abs_far formula_abs
  /\ (1 <? 1.5)%float = true /\ 1 <= 1000
  /\ mandelbrot formula_abs 1.5 0.25 1000 < 1000
  /\ mandelbrot formula_abs 2 0 1000 = 1.
Proof.
  destruct (mandelbrot_right_of_one_escapes formula_abs 1.5 0.25 1000)
    as (Hlt & _ & Htwo);
    [exact formula_abs_origin|exact formula_abs_at_two|exact formula_abs_far
    |reflexivity|lia|].
  split; [exact formula_abs_origin|]. split; [exact formula_abs_at_two|].
  split; [exact formula_abs_far|].
  split; [reflexivity|]. split; [lia|]. split; [exact Hlt|exact Htwo].
Defined.

(** * Further properties of the three functions *)

(** ** [mandelbrot]: the count and the orbit *)

Lemma orbit_succ c k :
  orbit c (S k) = cadd (cmul (orbit c k) (orbit c k)) c.
Proof. reflexivity. Qed.

Lemma mandelbrot_first_round (std_abs : complex -> float) real imag m :
  abs_origin std_abs ->
  1 <= m ->
  mandelbrot std_abs real imag m =
  mandelbrot_loop std_abs (Z.to_nat m - 1) (Complex real imag)
    (cadd (cmul (Complex 0 0) (Complex 0 0)) (Complex real imag)) 1 m.
Proof.
  intros Horigin Hm. unfold mandelbrot.
  destruct (Z.to_nat m) as [|fuel] eqn:Hfuel; [lia|].
  rewrite mandelbrot_loop_unfold.
  replace (std_abs (Complex 0 0) <? 2)%float with true
    by (symmetry; exact Horigin).
  replace (0 <? m) with true by (symmetry; apply Z.ltb_lt; lia).
  cbn [andb]. replace (S fuel - 1)%nat with fuel by lia. reflexivity.
Qed.

(** X1: [mandelbrot] returns 0 exactly when the cap is not positive: with
    a positive cap the first round always runs, since [|0| < 2] (which is
    what this uses of [std::abs]). *)
Theorem mandelbrot_zero_iff
    (std_abs : complex -> float) (real imag : float) (m : Z) :
  abs_origin std_abs ->
  mandelbrot std_abs real imag m = 0 <-> m <= 0.
Proof.
  intros Horigin. split.
  - intros H0. destruct (Z_le_gt_dec m 0) as [Hle|Hgt]; [exact Hle|].
    rewrite mandelbrot_first_round in H0 by (assumption || lia).
    pose proof (mandelbrot_loop_range std_abs (Complex real imag) m
                  (Z.to_nat m - 1)
                  (cadd (cmul (Complex 0 0) (Complex 0 0))
                        (Complex real imag)) 1 ltac:(lia)).
    lia.
  - intros Hle. unfold mandelbrot.
    replace (Z.to_nat m) with O by lia. reflexivity.
Qed.

Lemma mandelbrot_zero_iff_witness :
  abs_origin formula_abs
  /\ (mandelbrot formula_abs 0.5 0.5 0 = 0 <-> 0 <= 0).
Proof.
  split; [exact formula_abs_origin|].
  apply mandelbrot_zero_iff. exact formula_abs_origin.
Defined.

Section Orbit.
Variable std_abs : complex -> float.
Variable c : complex.
Variable m : Z.

(** The loop entered at step [j] of the orbit: the rounds it runs all saw
    the orbit inside the disc, and when it stops below the cap the orbit
    has left the disc. *)
Lemma mandelbrot_loop_orbit fuel : forall j : nat,
  Z.of_nat j <= m -> m - Z.of_nat j <= Z.of_nat fuel ->
  let n := mandelbrot_loop std_abs fuel c (orbit c j) (Z.of_nat j) m in
  (forall k : nat, (j <= k)%nat -> Z.of_nat k < n ->
     (std_abs (orbit c k) <? 2)%float = true)
  /\ (n < m -> (std_abs (orbit c (Z.to_nat n)) <? 2)%float = false).
Proof.
  induction fuel as [|fuel IH]; intros j Hj Hfuel.
  - cbn [mandelbrot_loop]. split; [intros k Hk Hlt; lia|lia].
  - cbv zeta. rewrite mandelbrot_loop_unfold.
    destruct (std_abs (orbit c j) <? 2)%float eqn:Hin; cbn [andb].
    + destruct (Z.of_nat j <? m) eqn:Hlt.
      * apply Z.ltb_lt in Hlt.
        replace (Z.of_nat j + 1) with (Z.of_nat (S j)) by lia.
        rewrite <- orbit_succ.
        destruct (IH (S j) ltac:(lia) ltac:(lia)) as [Hbefore Hafter].
        split; [|exact Hafter].
        intros k Hk Hkn.
        destruct (Nat.eq_dec k j) as [->|Hne]; [exact Hin|].
        apply Hbefore; [lia|exact Hkn].
      * apply Z.ltb_ge in Hlt. split; [intros k Hk Hkn; lia|lia].
    + split; [intros k Hk Hkn; lia|].
      intros _. rewrite Nat2Z.id. exact Hin.
Qed.
End Orbit.

(** X2: for a cap [m >= 0] the count [n] that [mandelbrot] returns is the
    first index at which the orbit of 0 under [z -> z*z + c] fails the
    test [std::abs(z) < 2.0], or the cap when there is none below it: the
    test holds at every index below [n], and fails at [n] when [n < m].
    Nothing is assumed of [std::abs]. *)
Theorem mandelbrot_first_exit
    (std_abs : complex -> float) (real imag : float) (m : Z) :
  0 <= m ->
  let c := Complex real imag in
  let n := mandelbrot std_abs real imag m in
  0 <= n <= m
  /\ (forall k : nat, Z.of_nat k < n -> (std_abs (orbit c k) <? 2)%float = true)
  /\ (n < m -> (std_abs (orbit c (Z.to_nat n)) <? 2)%float = false).
Proof.
  intros Hm c n. split.
  - apply (mandelbrot_loop_range std_abs c m). exact Hm.
  - destruct (mandelbrot_loop_orbit std_abs c m (Z.to_nat m) O)
      as [Hbefore Hafter];
      [lia|lia|].
    split; [|exact Hafter].
    intros k Hk. apply Hbefore; [lia|exact Hk].
Qed.

Lemma mandelbrot_first_exit_witness :
  0 <= 1000
  /\ mandelbrot formula_abs 2 0 1000 = 1
  /\ (formula_abs (orbit (Complex 2 0) 0) <? 2)%float = true
  /\ (formula_abs (orbit (Complex 2 0) 1) <? 2)%float = false.
Proof.
  assert (H : mandelbrot formula_abs 2 0 1000 = 1)
    by (vm_compute; reflexivity).
  destruct (mandelbrot_first_exit formula_abs 2 0 1000 ltac:(lia))
    as (_ & Hin & Hout).
  split; [lia|]. split; [exact H|]. split.
  - apply (Hin O). rewrite H. lia.
  - rewrite H in Hout. apply Hout. lia.
Defined.

Section Caps.
Variable std_abs : complex -> float.
Variable c : complex.
Variables m m' : Z.
Hypothesis Hcaps : m <= m'.

(** The loop under the cap [m] and the loop under a larger cap [m'] walk
    the same orbit; the first stops at [m] at the latest. *)
Lemma mandelbrot_loop_caps fuel : forall fuel' z count,
  count <= m ->
  m - count <= Z.of_nat fuel -> m' - count <= Z.of_nat fuel' ->
  mandelbrot_loop std_abs fuel c z count m
  = Z.min m (mandelbrot_loop std_abs fuel' c z count m').
Proof.
  induction fuel as [|fuel IH]; intros fuel' z count Hc Hf Hf'.
  - cbn [mandelbrot_loop].
    pose proof (mandelbrot_loop_range std_abs c m' fuel' z count
                  ltac:(lia)).
    lia.
  - rewrite mandelbrot_loop_unfold.
    destruct (count <? m) eqn:Hlt.
    + apply Z.ltb_lt in Hlt.
      destruct fuel' as [|fuel']; [lia|].
      rewrite mandelbrot_loop_unfold.
      replace (count <? m') with true by (symmetry; apply Z.ltb_lt; lia).
      destruct (std_abs z <? 2)%float; cbn [andb]; [|lia].
      apply IH; lia.
    + apply Z.ltb_ge in Hlt. rewrite andb_false_r.
      pose proof (mandelbrot_loop_range std_abs c m' fuel' z count
                  ltac:(lia)).
    lia.
Qed.
End Caps.

(** X3: raising the cap never changes a count that stayed below it: for
    [0 <= m <= m'], [mandelbrot real imag m] is the smaller of [m] and
    [mandelbrot real imag m'].  Nothing is assumed of [std::abs]. *)
Theorem mandelbrot_cap_stable
    (std_abs : complex -> float) (real imag : float) (m m' : Z) :
  0 <= m -> m <= m' ->
  mandelbrot std_abs real imag m = Z.min m (mandelbrot std_abs real imag m').
Proof.
  intros Hm Hle. unfold mandelbrot. apply mandelbrot_loop_caps; lia.
Qed.

Lemma mandelbrot_cap_stable_witness :
  0 <= 3 /\ 3 <= 1000
  /\ mandelbrot formula_abs 0.5 0.5 3
     = Z.min 3 (mandelbrot formula_abs 0.5 0.5 1000).
Proof.
  split; [lia|]. split; [lia|]. apply mandelbrot_cap_stable; lia.
Defined.

(** ** [getColor] at the cap of the program *)

Lemma all_below_spec n p :
  all_below n p = true ->
  forall i, 0 <= i < Z.of_nat n -> p i = true.
Proof.
  induction n as [|n IH]; intros H i Hi; [lia|].
  cbn [all_below] in H. apply andb_true_iff in H as [Hn Hp].
  destruct (Z.eq_dec i (Z.of_nat n)) as [->|Hne]; [exact Hp|].
  apply IH; [exact Hn|lia].
Qed.

Lemma color_eqb_eq u v : color_eqb u v = true <-> u = v.
Proof.
  destruct u as [[r g] b], v as [[r' g'] b']. unfold color_eqb.
  rewrite !andb_true_iff, !Z.eqb_eq. split.
  - intros [[-> ->] ->]. reflexivity.
  - intros [= -> -> ->]. auto.
Qed.

(** X4: with the cap 1000 of the program, the colour [getColor] returns is
    the colour of the truncate-then-clamp formula exactly for the counts
    below 113 and above 896; for the 784 counts from 113 to 896 some
    channel has wrapped around. *)
Theorem getColor_agrees_with_clamp_1000 (i : Z) :
  0 <= i <= 1000 ->
  getColor i 1000 = getColor_spec i 1000 <-> i < 113 \/ 896 < i.
Proof.
  intros Hi.
  assert (Hall : all_below 1001 (fun i =>
            Bool.eqb (color_eqb (getColor i 1000) (getColor_spec i 1000))
                     ((i <? 113) || (896 <? i))) = true)
    by (vm_compute; reflexivity).
  pose proof (all_below_spec _ _ Hall i ltac:(lia)) as H.
  cbv beta in H. apply eqb_prop in H.
  rewrite <- color_eqb_eq, H, orb_true_iff, Z.ltb_lt, Z.ltb_lt.
  reflexivity.
Qed.

Lemma getColor_agrees_with_clamp_1000_witness :
  0 <= 112 <= 1000
  /\ getColor 112 1000 = getColor_spec 112 1000.
Proof.
  split; [lia|].
  apply (getColor_agrees_with_clamp_1000 112); lia.
Defined.

(** X5: with the cap 1000 every channel formula, once truncated, lies in
    [[0, 363]]: a stored channel is the truncated value, or that value
    less 256 when it is above 255.  No channel wraps twice. *)
Theorem getColor_wraps_once_1000 (i : Z) :
  0 <= i < 1000 ->
  let t := (int_to_double i / int_to_double 1000)%float in
  let wrap v := if 255 <? v then v - 256 else v in
  0 <= double_trunc (red_formula t) <= 363
  /\ 0 <= double_trunc (green_formula t) <= 363
  /\ 0 <= double_trunc (blue_formula t) <= 363
  /\ getColor i 1000 = (wrap (double_trunc (red_formula t)),
                        wrap (double_trunc (green_formula t)),
                        wrap (double_trunc (blue_formula t))).
Proof.
  intros Hi t wrap.
  set (ok v := (0 <=? v) && (v <=? 363)).
  assert (Hall : all_below 1000 (fun i =>
            let t := (int_to_double i / int_to_double 1000)%float in
            ok (double_trunc (red_formula t))
            && ok (double_trunc (green_formula t))
            && ok (double_trunc (blue_formula t))) = true)
    by (vm_compute; reflexivity).
  pose proof (all_below_spec _ _ Hall i ltac:(lia)) as H.
  cbv beta zeta in H. fold t in H.
  apply andb_true_iff in H as [H Hb]. apply andb_true_iff in H as [Hr Hg].
  unfold ok in Hr, Hg, Hb.
  apply andb_true_iff in Hr as [Hr0 Hr1].
  apply andb_true_iff in Hg as [Hg0 Hg1].
  apply andb_true_iff in Hb as [Hb0 Hb1].
  apply Z.leb_le in Hr0, Hr1, Hg0, Hg1, Hb0, Hb1.
  split; [lia|]. split; [lia|]. split; [lia|].
  unfold getColor. fold t.
  replace (i =? 1000) with false by (symmetry; apply Z.eqb_neq; lia).
  cbv zeta. rewrite !min_after_cast. unfold double_to_uchar, wrap.
  assert (Hw : forall v, 0 <= v <= 363 ->
                 v mod 256 = if 255 <? v then v - 256 else v).
  { intros v Hv. destruct (255 <? v) eqn:Hlt.
    - apply Z.ltb_lt in Hlt. symmetry. apply (Z.mod_unique v 256 1); lia.
    - apply Z.ltb_ge in Hlt. apply Z.mod_small. lia. }
  rewrite !Hw by lia. reflexivity.
Qed.

Lemma getColor_wraps_once_1000_witness :
  0 <= 750 < 1000 /\ getColor 750 1000 = (363 - 256, 201, 38).
Proof.
  split; [lia|].
  destruct (getColor_wraps_once_1000 750 ltac:(lia)) as (_ & _ & _ & H).
  exact H.
Defined.

(** For a count between 1 and the cap 1000, black means the cap. *)
Lemma getColor_black_1000 i :
  1 <= i <= 1000 -> getColor i 1000 = (0, 0, 0) <-> i = 1000.
Proof.
  intros Hi.
  assert (Hall : all_below 1001 (fun i =>
            (i =? 0)
            || Bool.eqb (color_eqb (getColor i 1000) (0, 0, 0))
                        (i =? 1000)) = true)
    by (vm_compute; reflexivity).
  pose proof (all_below_spec _ _ Hall i ltac:(lia)) as H.
  cbv beta in H. apply orb_true_iff in H as [H|H];
    [apply Z.eqb_eq in H; lia|].
  apply eqb_prop in H. rewrite <- color_eqb_eq, H. apply Z.eqb_eq.
Qed.

(** X6: the colour of a point is black exactly when its count reached the
    cap of 1000 rounds: no escaped point is drawn black.  Of [std::abs]
    this uses that the magnitude of [0] is below 2, so that the count is
    at least 1. *)
Theorem black_means_not_escaped
    (std_abs : complex -> float) (real imag : float) :
  abs_origin std_abs ->
  getColor (mandelbrot std_abs real imag 1000) 1000 = (0, 0, 0)
  <-> mandelbrot std_abs real imag 1000 = 1000.
Proof.
  intros Horigin. apply getColor_black_1000.
  pose proof (mandelbrot_loop_range std_abs (Complex real imag) 1000
                (Z.to_nat 1000) (Complex 0 0) 0 ltac:(lia)) as Hrange.
  fold (mandelbrot std_abs real imag 1000) in Hrange.
  destruct (Z.eq_dec (mandelbrot std_abs real imag 1000) 0) as [H0|Hne];
    [|lia].
  rewrite mandelbrot_first_round in H0 by (assumption || lia).
  pose proof (mandelbrot_loop_range std_abs (Complex real imag) 1000
                (Z.to_nat 1000 - 1)
                (cadd (cmul (Complex 0 0) (Complex 0 0))
                      (Complex real imag)) 1 ltac:(lia)).
  lia.
Qed.

Lemma black_means_not_escaped_witness :
  abs_origin formula_abs
  /\ (getColor (mandelbrot formula_abs 0 0 1000) 1000 = (0, 0, 0)
      <-> mandelbrot formula_abs 0 0 1000 = 1000).
Proof.
  split; [exact formula_abs_origin|].
  apply black_means_not_escaped. exact formula_abs_origin.
Defined.

(** ** Every channel is a byte *)

Lemma getColor_bytes i m :
  let '(r, g, b) := getColor i m in is_byte r /\ is_byte g /\ is_byte b.
Proof.
  unfold getColor, is_byte. destruct (i =? m); [lia|].
  cbv zeta. rewrite !min_after_cast.
  split; [|split]; apply double_to_uchar_range.
Qed.

Lemma vector_set_bytes (image image' : list uchar) i v :
  vector_set image i v = Some image' ->
  is_byte v -> Forall is_byte image -> Forall is_byte image'.
Proof.
  intros H Hv Himage. apply vector_set_inv in H as [_ ->].
  apply Forall_insert; assumption.
Qed.

Section Bytes.
Variable std_abs : complex -> float.

Lemma pixel_body_bytes x y (image image' : list uchar) :
  pixel_body std_abs x y image = Some image' ->
  Forall is_byte image -> Forall is_byte image'.
Proof.
  unfold pixel_body. pose proof (getColor_bytes
    (mandelbrot std_abs (pixel_real x) (pixel_imag y) maxIterations)
    maxIterations) as Hbytes.
  change (getColor _ _) with (pixel_color std_abs x y) in Hbytes.
  destruct (pixel_color std_abs x y) as [[r g] b].
  destruct Hbytes as (Hr & Hg & Hb).
  destruct (vector_set image (pixel_index x y) r) as [i1|] eqn:H1;
    [|discriminate].
  cbn [mbind option_bind].
  destruct (vector_set i1 (pixel_index x y + 1) g) as [i2|] eqn:H2;
    [|discriminate].
  cbn [mbind option_bind].
  intros H3 Himage.
  eapply vector_set_bytes; [exact H3|exact Hb|].
  eapply vector_set_bytes; [exact H2|exact Hg|].
  eapply vector_set_bytes; [exact H1|exact Hr|exact Himage].
Qed.

Lemma raster_bytes (image image' : list uchar) :
  raster std_abs image = Some image' ->
  Forall is_byte image -> Forall is_byte image'.
Proof.
  unfold raster, for_upto. intros Hloop Himage.
  eapply (for_loop_preserves (column_body std_abs) (Forall is_byte));
    [|exact Hloop|exact Himage].
  intros x t t' Hcol Ht. unfold column_body, for_upto in Hcol.
  eapply (for_loop_preserves (pixel_body std_abs x) (Forall is_byte));
    [|exact Hcol|exact Ht].
  intros y u u'. apply pixel_body_bytes.
Qed.
End Bytes.

Lemma vector_new_bytes n : Forall is_byte (vector_new n).
Proof.
  unfold vector_new. apply Forall_replicate. unfold is_byte. lia.
Qed.

(** ** [main]: the buffer, the console and the call of the encoder *)

Section Main.
Variable std_abs : complex -> float.

(** The run of [main] in full: the buffer is the one the raster loop
    leaves, of 1,920,000 bytes. *)
Lemma main_outcome (w : png_writer) :
  exists image,
    raster std_abs (vector_new (width * height * 3)) = Some image
    /\ Z.of_nat (length image) = 1920000
    /\ Forall is_byte image
    /\ main std_abs w =
       Some (if w "mandelbrot_fractal_pattern.png"%string 800 800 3
                  image 2400 =? 0
             then Outcome 1 image
                    [Cout "Generating Mandelbrot...";
                     Cout "Mandelbrot generation complete.";
                     CoutSize 1920000;
                     Cerr "Failed to save the image!"]
             else Outcome 0 image
                    [Cout "Generating Mandelbrot...";
                     Cout "Mandelbrot generation complete.";
                     CoutSize 1920000;
                     Cout "Image saved successfully!"]).
Proof.
  destruct (raster_spec std_abs (vector_new (width * height * 3)))
    as (image & Hraster & Hlen & _).
  { apply vector_new_length. unfold buffer_size, width, height. lia. }
  rewrite buffer_size_value in Hlen.
  exists image. split; [exact Hraster|]. split; [exact Hlen|]. split.
  - apply (raster_bytes std_abs _ _ Hraster). apply vector_new_bytes.
  - unfold main. rewrite Hraster. cbn [mbind option_bind]. rewrite Hlen.
    change (width * 3) with 2400. change width with 800.
    change height with 800.
    destruct (w _ _ _ _ _ _ =? 0); reflexivity.
Qed.

(** X7: every element of the buffer [main] hands to the encoder and ends
    with is a byte, between 0 and 255: the integers that stand for
    [unsigned char] never leave its range, from [getColor] to the last
    store of the raster loop. *)
Theorem main_buffer_bytes (w : png_writer) :
  exists o, main std_abs w = Some o /\ Forall is_byte (image_buffer o).
Proof.
  destruct (main_outcome w) as (image & _ & _ & Hbytes & Hmain).
  eexists. split; [exact Hmain|].
  destruct (w _ _ _ _ _ _ =? 0); exact Hbytes.
Qed.

(** X8: what [main] prints, in order: the start line, the completion
    line, the buffer size 1920000, and last the success line on standard
    output when the exit code is 0, the failure line on standard error
    when it is 1. *)
Theorem main_console (w : png_writer) :
  exists o,
    main std_abs w = Some o
    /\ console o =
       [Cout "Generating Mandelbrot...";
        Cout "Mandelbrot generation complete.";
        CoutSize 1920000;
        if exit_code o =? 0 then Cout "Image saved successfully!"
        else Cerr "Failed to save the image!"].
Proof.
  destruct (main_outcome w) as (image & _ & _ & _ & Hmain).
  eexists. split; [exact Hmain|].
  destruct (w _ _ _ _ _ _ =? 0); reflexivity.
Qed.

(** X9: [main] calls the encoder once, on the file name
    [mandelbrot_fractal_pattern.png], width 800, height 800, 3 channels,
    a buffer of 800 rows of 2400 bytes and the stride 2400, and depends on
    nothing else of the encoder: two encoders that answer alike on such
    calls give the same run. *)
Theorem main_encoder_call (w w' : png_writer) :
  (forall data : list uchar,
     Z.of_nat (length data) = 800 * 2400 -> Forall is_byte data ->
     w "mandelbrot_fractal_pattern.png"%string 800 800 3 data 2400
     = w' "mandelbrot_fractal_pattern.png"%string 800 800 3 data 2400) ->
  main std_abs w = main std_abs w'.
Proof.
  intros Hsame.
  destruct (main_outcome w) as (image & Hraster & Hlen & Hbytes & Hmain).
  destruct (main_outcome w') as (image' & Hraster' & _ & _ & Hmain').
  assert (image' = image) as -> by congruence.
  rewrite Hmain, Hmain', (Hsame image); [reflexivity|lia|exact Hbytes].
Qed.

End Main.

Lemma main_encoder_call_witness :
  main formula_abs (fun _ _ _ _ data _ => Z.of_nat (length data) - 1920000)
  = main formula_abs (fun _ _ _ _ _ _ => 0).
Proof.
  apply main_encoder_call. intros data Hlen _. lia.
Defined.

(** ** The sample points *)

Lemma pixel_color_coordinates (std_abs : complex -> float) x y :
  pixel_color std_abs x y =
  getColor (mandelbrot std_abs (pixel_real x) (pixel_imag y) 1000) 1000.
Proof. reflexivity. Qed.

(** X10: the sample points of [main]: for every column and row in
    [[0, 800)] the real coordinate lies in [[-2, 1)] and the imaginary
    coordinate in [[-1.5, 1.5)], the first column and row sit on [-2] and
    [-1.5], and both coordinates grow strictly from one column, or row, to
    the next: after rounding no two columns and no two rows share a
    coordinate. *)
Theorem pixel_coordinates (x : Z) :
  0 <= x < 800 ->
  ((-2 <=? pixel_real x) && (pixel_real x <? 1))%float = true
  /\ ((-1.5 <=? pixel_imag x) && (pixel_imag x <? 1.5))%float = true
  /\ (x = 0 -> pixel_real x = (-2)%float /\ pixel_imag x = (-1.5)%float)
  /\ (x < 799 ->
      (pixel_real x <? pixel_real (x + 1))%float = true
      /\ (pixel_imag x <? pixel_imag (x + 1))%float = true).
Proof.
  intros Hx.
  assert (Hall : all_below 800 (fun x =>
            ((-2 <=? pixel_real x) && (pixel_real x <? 1)
             && (-1.5 <=? pixel_imag x) && (pixel_imag x <? 1.5))%float
            && ((799 <=? x)
                || ((pixel_real x <? pixel_real (x + 1))
                    && (pixel_imag x <? pixel_imag (x + 1)))%float))
          = true)
    by (vm_compute; reflexivity).
  pose proof (all_below_spec _ _ Hall x ltac:(lia)) as H.
  cbv beta in H.
  apply andb_true_iff in H as [H Hnext].
  apply andb_true_iff in H as [H H4]. apply andb_true_iff in H as [H H3].
  apply andb_true_iff in H as [H1 H2].
  split; [rewrite H1, H2; reflexivity|].
  split; [rewrite H3, H4; reflexivity|].
  split; [intros ->; split; reflexivity|].
  intros Hlt. apply orb_true_iff in Hnext as [Hlast|Hnext].
  - apply Z.leb_le in Hlast. lia.
  - apply andb_true_iff in Hnext. exact Hnext.
Qed.

Lemma pixel_coordinates_witness :
  0 <= 400 < 800
  /\ ((-2 <=? pixel_real 400) && (pixel_real 400 <? 1))%float = true
  /\ (pixel_real 400 <? pixel_real (400 + 1))%float = true.
Proof.
  destruct (pixel_coordinates 400 ltac:(lia)) as (Hre & _ & _ & Hnext).
  split; [lia|]. split; [exact Hre|]. apply Hnext. lia.
Defined.

(** ** Points outside the square of side 4 *)

(** [|x| < 2] fails once [x] is NaN or at least 2 in magnitude. *)
Lemma outside_coordinate x s a :
  two <= a -> LBf s x a -> (abs x <? 2)%float = false.
Proof.
  intros Ha H. rewrite ltb_spec, abs_spec.
  change (Prim2SF 2) with (S754_finite false 4503599627370496 (-51)).
  apply SFltb_false.
  - rewrite <- abs_spec. apply Prim2SF_valid.
  - reflexivity.
  - apply LB_abs with (s := s). apply (LB_weaken _ _ a); [|exact H].
    assert (Htwo : M (S754_finite false 4503599627370496 (-51)) = two)
      by (vm_compute; reflexivity).
    rewrite Htwo. exact Ha.
Qed.

(** The test on a coordinate of [c] is the test on that coordinate of
    [z1 = 0*0 + c]. *)
Lemma first_coordinate_outside x :
  (abs x <? 2)%float = false -> (abs (0 + x) <? 2)%float = false.
Proof.
  intros H. apply abs_not_lt_two in H.
  apply (outside_coordinate _ (sb (Prim2SF x)) two); [lia|].
  apply first_LBf; [apply two_pos|exact H].
Qed.

Lemma mandelbrot_first_step_exit
    (std_abs : complex -> float) real imag m :
  abs_origin std_abs -> abs_outside std_abs ->
  1 <= m ->
  (abs real <? 2)%float = false \/ (abs imag <? 2)%float = false ->
  mandelbrot std_abs real imag m = 1.
Proof.
  intros Horigin Hout Hm H. rewrite mandelbrot_first_round by assumption.
  change (cadd (cmul (Complex 0 0) (Complex 0 0)) (Complex real imag))
    with (Complex (first_re real) (first_im imag)).
  apply mandelbrot_loop_stops. apply Hout. cbn [re im].
  destruct H as [H|H]; [left|right]; apply first_coordinate_outside;
    exact H.
Qed.

(** X11: a point with a coordinate that is not below 2 in magnitude (at
    least 2, infinite, or NaN) is counted as escaped after one round,
    whatever the positive cap.  This includes [c = -2], which belongs to
    the Mandelbrot set: the test [|z| < 2] is strict.  Of [std::abs] this
    uses that the magnitude of [0] is below 2 and that the magnitude of a
    point with such a coordinate is not. *)
Theorem mandelbrot_outside_square
    (std_abs : complex -> float) (real imag : float) (m : Z) :
  abs_origin std_abs -> abs_outside std_abs ->
  1 <= m ->
  (abs real <? 2)%float = false \/ (abs imag <? 2)%float = false ->
  mandelbrot std_abs real imag m = 1
  /\ mandelbrot std_abs (-2) 0 m = 1
  /\ mandelbrot std_abs nan imag m = 1.
Proof.
  intros Horigin Hout Hm H.
  split; [|split]; apply mandelbrot_first_step_exit;
    try assumption; left; reflexivity.
Qed.

Lemma mandelbrot_outside_square_witness :
  abs_origin formula_abs /\ abs_outside formula_abs
  /\ 1 <= 1000
  /\ (abs (-2.5) <? 2)%float = false
  /\ mandelbrot formula_abs (-2.5) 0.25 1000 = 1.
Proof.
  split; [exact formula_abs_origin|]. split; [exact formula_abs_outside|].
  split; [lia|]. split; [reflexivity|].
  apply (mandelbrot_outside_square formula_abs (-2.5) 0.25 1000);
    [exact formula_abs_origin|exact formula_abs_outside|lia|].
  left. reflexivity.
Defined.

(** X12: the first column of the picture samples the line [re c = -2]:
    every pixel of it has the count 1 and the colour [(0, 0, 3)], and the
    buffer of [main] holds these three bytes for each of its 800 rows,
    the row of [c = -2] itself (row 400) included.  Of [std::abs] this
    uses that the magnitude of [0] is below 2 and that the magnitude of a
    point with real part [-2] is not. *)
Theorem left_column_colour (std_abs : complex -> float) :
  abs_origin std_abs -> abs_outside std_abs ->
  exists image : list uchar,
    raster std_abs (vector_new (800 * 800 * 3)) = Some image
    /\ pixel_real 0 = (-2)%float
    /\ pixel_imag 400 = 0%float
    /\ forall y, 0 <= y < 800 ->
         mandelbrot std_abs (pixel_real 0) (pixel_imag y) 1000 = 1
         /\ image !! Z.to_nat (y * 800 * 3) = Some 0
         /\ image !! Z.to_nat (y * 800 * 3 + 1) = Some 0
         /\ image !! Z.to_nat (y * 800 * 3 + 2) = Some 3.
Proof.
  intros Horigin Hout.
  destruct (raster_spec std_abs (vector_new (width * height * 3)))
    as (image & Hraster & _ & Hdone).
  { apply vector_new_length. unfold buffer_size, width, height. lia. }
  exists image. split; [exact Hraster|]. split; [reflexivity|].
  split; [reflexivity|].
  intros y Hy.
  assert (Hcount :
            mandelbrot std_abs (pixel_real 0) (pixel_imag y) 1000 = 1).
  { apply mandelbrot_first_step_exit; [assumption|assumption|lia|].
    left. reflexivity. }
  split; [exact Hcount|].
  specialize (Hdone 0 y ltac:(unfold width; lia) ltac:(unfold height; lia)
                ltac:(unfold width; lia)).
  unfold pixel_stored in Hdone.
  rewrite pixel_color_coordinates, Hcount in Hdone.
  change (getColor 1 1000) with (0, 0, 3) in Hdone.
  replace (pixel_index 0 y) with (y * 800 * 3) in Hdone
    by (unfold pixel_index, width; lia).
  exact Hdone.
Qed.

Lemma left_column_colour_witness :
  abs_origin formula_abs /\ abs_outside formula_abs
  /\ exists image : list uchar,
       raster formula_abs (vector_new (800 * 800 * 3)) = Some image
       /\ image !! Z.to_nat (400 * 800 * 3) = Some 0
       /\ image !! Z.to_nat (400 * 800 * 3 + 1) = Some 0
       /\ image !! Z.to_nat (400 * 800 * 3 + 2) = Some 3.
Proof.
  split; [exact formula_abs_origin|]. split; [exact formula_abs_outside|].
  destruct (left_column_colour formula_abs formula_abs_origin
              formula_abs_outside) as (image & Hraster & _ & _ & Hcol).
  exists image. split; [exact Hraster|].
  destruct (Hcol 400 ltac:(lia)) as (_ & H0 & H1 & H2). auto.
Defined.

(** ** The count 0 *)

(** [(double)m] for a positive [m] is a positive number, at least 1. *)
Lemma int_to_double_pos m :
  0 < m < 2 ^ 63 ->
  Prim2SF (int_to_double m) <> S754_nan
  /\ sb (Prim2SF (int_to_double m)) = false
  /\ one <= M (Prim2SF (int_to_double m)).
Proof.
  intros Hm. unfold int_to_double.
  replace (m <? 0) with false by (symmetry; apply Z.ltb_ge; lia).
  rewrite of_uint63_spec, Uint63.of_Z_spec.
  rewrite Z.mod_small by (change Uint63Axioms.wB with (2 ^ 63); lia).
  destruct m as [|p|p]; try lia. cbn [binary_normalize].
  destruct (round_rnd false p 0 (-1074)) as (Hnan & Hsb & HM); [lia|lia|].
  split; [exact Hnan|]. split; [exact Hsb|]. rewrite HM.
  assert (Hone : rnd (-1074) one = one) by (vm_compute; reflexivity).
  rewrite <- Hone at 1. apply rnd_mono; [lia|].
  change (0 - -1074) with 1074. unfold one.
  pose proof (pow2_pos 1074 ltac:(lia)). hide_pows. nia.
Qed.

Lemma zero_div_pos d :
  Prim2SF d <> S754_nan -> sb (Prim2SF d) = false -> 0 < M (Prim2SF d) ->
  (0 / d)%float = 0%float.
Proof.
  intros Hnan Hsb HM. apply Prim2SF_inj. rewrite div_spec.
  change (Prim2SF 0) with (S754_zero false).
  destruct (Prim2SF d) as [s|s| |s m e]; cbn [sb M] in *; subst;
    first [reflexivity | congruence | lia].
Qed.

(** X13: for every positive cap [m] (an [int]) the count 0 is coloured
    black: [t] is then exactly [+0], and each formula has the factor
    [t]. *)
Theorem getColor_zero_is_black (m : Z) :
  0 < m < 2 ^ 31 -> getColor 0 m = (0, 0, 0).
Proof.
  intros Hm. unfold getColor.
  replace (0 =? m) with false by (symmetry; apply Z.eqb_neq; lia).
  destruct (int_to_double_pos m) as (Hnan & Hsb & HM); [lia|].
  replace (int_to_double 0 / int_to_double m)%float with 0%float.
  - reflexivity.
  - symmetry. apply (zero_div_pos (int_to_double m)); [exact Hnan|exact Hsb|].
    pose proof (pow2_pos 1074 ltac:(lia)). unfold one in HM. hide_pows. lia.
Qed.

Lemma getColor_zero_is_black_witness :
  0 < 1000 < 2 ^ 31 /\ getColor 0 1000 = (0, 0, 0).
Proof.
  split; [lia|]. apply getColor_zero_is_black. lia.
Defined.

(** ** The count of the conjugate point *)

Lemma mirror_round_aux s m e l :
  mirror (binary_round_aux prec emax s m e l)
         (binary_round_aux prec emax (negb s) m e l).
Proof.
  unfold binary_round_aux.
  destruct (shr_fexp prec emax m e l) as [r1 e1].
  destruct (shr_fexp prec emax _ e1 loc_Exact) as [r2 e2].
  destruct (shr_m r2); cbn [mirror]; auto.
  destruct (e2 <=? emax - prec); cbn [mirror]; auto.
Qed.

Lemma mirror_round s m e :
  mirror (binary_round prec emax s m e)
         (binary_round prec emax (negb s) m e).
Proof.
  unfold binary_round. destruct (shl_align m e _) as [mz ez].
  apply mirror_round_aux.
Qed.

Lemma mirror_normalize v e :
  mirror (binary_normalize prec emax v e false)
         (binary_normalize prec emax (- v) e false).
Proof.
  destruct v as [|p|p]; cbn [binary_normalize Z.opp].
  - exact I.
  - apply (mirror_round false).
  - apply (mirror_round true).
Qed.

Lemma mirror_opp X : mirror X (SFopp X).
Proof. destruct X; cbn [SFopp mirror]; auto. Qed.

Lemma mirror_mul_r R X Y :
  mirror X Y -> mirror (SFmul prec emax R X) (SFmul prec emax R Y).
Proof.
  destruct X as [s|s| |s m e], Y as [s'|s'| |s' m' e']; cbn [mirror];
    try contradiction; intros H.
  - destruct R; cbn [SFmul mirror]; auto.
  - subst. destruct R as [[]|[]| |[]]; destruct s; cbn [SFmul mirror xorb negb];
      auto.
  - destruct R; cbn [SFmul mirror]; auto.
  - destruct H as (-> & -> & ->).
    destruct R as [sr|sr| |sr mr er]; cbn [SFmul mirror]; auto.
    + destruct sr, s; reflexivity.
    + replace (xorb sr (negb s)) with (negb (xorb sr s))
        by (destruct sr, s; reflexivity).
      apply mirror_round_aux.
Qed.

Lemma mirror_mul_l R X Y :
  mirror X Y -> mirror (SFmul prec emax X R) (SFmul prec emax Y R).
Proof.
  destruct X as [s|s| |s m e], Y as [s'|s'| |s' m' e']; cbn [mirror];
    try contradiction; intros H.
  - destruct R; cbn [SFmul mirror]; auto.
  - subst. destruct R as [[]|[]| |[]]; destruct s; cbn [SFmul mirror xorb negb];
      auto.
  - destruct R; cbn [SFmul mirror]; auto.
  - destruct H as (-> & -> & ->).
    destruct R as [sr|sr| |sr mr er]; cbn [SFmul mirror]; auto.
    + destruct sr, s; reflexivity.
    + replace (xorb (negb s) sr) with (negb (xorb s sr))
        by (destruct sr, s; reflexivity).
      apply mirror_round_aux.
Qed.

(** The square forgets the sign. *)
Lemma mirror_square X Y :
  mirror X Y -> SFmul prec emax Y Y = SFmul prec emax X X.
Proof.
  destruct X as [s|s| |s m e], Y as [s'|s'| |s' m' e']; cbn [mirror];
    try contradiction; intros H.
  - cbn [SFmul]. destruct s, s'; reflexivity.
  - subst. cbn [SFmul]. destruct s; reflexivity.
  - reflexivity.
  - destruct H as (-> & -> & ->). cbn [SFmul]. destruct s; reflexivity.
Qed.

Lemma mirror_add A A' B B' :
  mirror A A' -> mirror B B' ->
  mirror (SFadd prec emax A B) (SFadd prec emax A' B').
Proof.
  destruct A as [a|a| |a ma ea], A' as [a'|a'| |a' ma' ea']; cbn [mirror];
    try contradiction; intros HA;
    destruct B as [b|b| |b mb eb], B' as [b'|b'| |b' mb' eb']; cbn [mirror];
    try contradiction; intros HB;
    try (destruct HA as (-> & -> & ->));
    try (destruct HB as (-> & -> & ->));
    subst; cbn [SFadd mirror]; auto;
    try (destruct a; destruct a'; destruct b; destruct b';
         cbn [mirror negb]; auto; fail);
    try (destruct a; destruct b; cbn [mirror negb]; auto; fail).
  replace (cond_Zopp (negb a) (Zpos (fst (shl_align ma ea (Z.min ea eb))))
           + cond_Zopp (negb b) (Zpos (fst (shl_align mb eb (Z.min ea eb)))))
    with (- (cond_Zopp a (Zpos (fst (shl_align ma ea (Z.min ea eb))))
             + cond_Zopp b (Zpos (fst (shl_align mb eb (Z.min ea eb))))))
    by (destruct a, b; cbn [cond_Zopp negb]; lia).
  apply mirror_normalize.
Qed.

Lemma mirror_abs y y' :
  mirror (Prim2SF y) (Prim2SF y') -> abs y' = abs y.
Proof.
  intros H. apply Prim2SF_inj. rewrite !abs_spec.
  destruct (Prim2SF y) as [s|s| |s m e], (Prim2SF y') as [s'|s'| |s' m' e'];
    cbn [mirror SFabs] in *; try contradiction; try reflexivity.
  destruct H as (_ & -> & ->). reflexivity.
Qed.

Section Conjugate.
Variable std_abs : complex -> float.
Hypothesis Heven : abs_even std_abs.
Variables cr ci : float.
Variable m : Z.

Lemma conjugates_abs z z' : conjugates z z' -> std_abs z' = std_abs z.
Proof.
  intros [Hre Him]. apply Heven; [exact Hre|].
  apply mirror_abs. exact Him.
Qed.

Lemma conjugates_step z z' :
  conjugates z z' ->
  conjugates (cadd (cmul z z) (Complex cr ci))
             (cadd (cmul z' z') (Complex cr (- ci))).
Proof.
  intros [Hre Him]. unfold conjugates, cadd, cmul. cbn [re im]. split.
  - rewrite Hre.
    replace (im z' * im z')%float with (im z * im z)%float; [reflexivity|].
    apply Prim2SF_inj. rewrite !mul_spec. symmetry.
    apply mirror_square. exact Him.
  - rewrite Hre, !add_spec, !mul_spec, opp_spec.
    apply mirror_add; [apply mirror_add|apply mirror_opp].
    + apply mirror_mul_r. exact Him.
    + apply mirror_mul_l. exact Him.
Qed.

Lemma mandelbrot_loop_conjugate fuel : forall z z' count,
  conjugates z z' ->
  mandelbrot_loop std_abs fuel (Complex cr (- ci)) z' count m
  = mandelbrot_loop std_abs fuel (Complex cr ci) z count m.
Proof.
  induction fuel as [|fuel IH]; intros z z' count Hz; [reflexivity|].
  rewrite !mandelbrot_loop_unfold, (conjugates_abs z z' Hz).
  destruct (_ && _); [|reflexivity].
  apply IH. apply conjugates_step. exact Hz.
Qed.
End Conjugate.

(** X14: the count of a point and of its complex conjugate are the same,
    for every pair of [double] coordinates and every cap: rounding
    respects the symmetry of the set about the real axis.  Of [std::abs]
    this uses that the magnitude depends on the imaginary part through
    its absolute value. *)
Theorem mandelbrot_conjugate
    (std_abs : complex -> float) (real imag : float) (m : Z) :
  abs_even std_abs ->
  mandelbrot std_abs real (- imag) m = mandelbrot std_abs real imag m.
Proof.
  intros Heven. unfold mandelbrot.
  apply mandelbrot_loop_conjugate; [exact Heven|].
  split; reflexivity.
Qed.

Lemma mandelbrot_conjugate_witness :
  abs_even formula_abs
  /\ mandelbrot formula_abs 0.25 (- 0.75) 1000
     = mandelbrot formula_abs 0.25 0.75 1000.
Proof.
  split; [exact formula_abs_even|].
  exact (mandelbrot_conjugate formula_abs 0.25 0.75 1000 formula_abs_even).
Defined.

(** ** The raster loop writes every byte *)

(** Every byte of the buffer belongs to a pixel. *)
Lemma byte_of_pixel (i : nat) :
  Z.of_nat i < buffer_size ->
  exists x y k,
    0 <= x < width /\ 0 <= y < height /\ 0 <= k <= 2
    /\ i = Z.to_nat (pixel_index x y + k).
Proof.
  rewrite buffer_size_value. intros Hi.
  pose proof (Z.div_mod (Z.of_nat i) 3 ltac:(lia)) as Hq.
  pose proof (Z.mod_pos_bound (Z.of_nat i) 3 ltac:(lia)) as Hk.
  set (q := Z.of_nat i / 3) in *. set (k := Z.of_nat i mod 3) in *.
  pose proof (Z.div_mod q 800 ltac:(lia)) as Hy.
  pose proof (Z.mod_pos_bound q 800 ltac:(lia)) as Hx.
  set (y := q / 800) in *. set (x := q mod 800) in *.
  clearbody q k x y. exists x, y, k. unfold pixel_index, width, height.
  repeat split; lia.
Qed.

(** Two buffers in which every pixel is stored are the same buffer. *)
Lemma raster_inv_unique
    (std_abs : complex -> float) (image image' : list uchar) :
  raster_inv std_abs width 0 image -> raster_inv std_abs width 0 image' ->
  image = image'.
Proof.
  intros [Hlen Hdone] [Hlen' Hdone']. apply list_eq. intros i.
  destruct (Z_lt_le_dec (Z.of_nat i) buffer_size) as [Hi|Hi].
  - destruct (byte_of_pixel i Hi) as (x & y & k & Hx & Hy & Hk & ->).
    specialize (Hdone x y Hx Hy ltac:(lia)).
    specialize (Hdone' x y Hx Hy ltac:(lia)).
    unfold pixel_stored in Hdone, Hdone'.
    destruct (pixel_color std_abs x y) as [[r g] b].
    destruct Hdone as (H0 & H1 & H2). destruct Hdone' as (H0' & H1' & H2').
    assert (Hcases : k = 0 \/ k = 1 \/ k = 2) by lia.
    destruct Hcases as [->|[->| ->]]; rewrite ?Z.add_0_r; congruence.
  - rewrite !(proj2 (lookup_ge_None _ _)) by lia. reflexivity.
Qed.

(** X15: the raster loop overwrites every byte of the buffer: started on
    any buffer of 1,920,000 bytes it ends with the same buffer as when
    started on the zeroed buffer of [main].  The picture does not depend
    on what the buffer held before, and running the loop again changes
    nothing. *)
Theorem raster_overwrites_every_byte (std_abs : complex -> float) :
  exists final : list uchar,
    raster std_abs (vector_new (800 * 800 * 3)) = Some final
    /\ raster std_abs final = Some final
    /\ forall image : list uchar,
         Z.of_nat (length image) = 1920000 -> raster std_abs image = Some final.
Proof.
  destruct (raster_spec std_abs (vector_new (width * height * 3)))
    as (final & Hraster & Hinv).
  { apply vector_new_length. unfold buffer_size, width, height. lia. }
  assert (Hall : forall image : list uchar,
            Z.of_nat (length image) = 1920000 ->
            raster std_abs image = Some final).
  { intros image Hlen.
    destruct (raster_spec std_abs image) as (image' & Hraster' & Hinv').
    { rewrite buffer_size_value. exact Hlen. }
    rewrite Hraster'. f_equal.
    apply (raster_inv_unique std_abs); assumption. }
  exists final. split; [exact Hraster|]. split; [|exact Hall].
  apply Hall. destruct Hinv as [Hlen _].
  rewrite Hlen. apply buffer_size_value.
Qed.

(** ** The square around the origin *)

Section NearOrigin.
Variable std_abs : complex -> float.
Hypothesis Hinside : abs_inside std_abs.
Variables cr ci : float.
Variable m : Z.
Hypothesis Hcr : withinf cr eighth.
Hypothesis Hci : withinf ci eighth.

(** In the square [|re z| <= 1/4], [|im z| <= 1/4] the test [|z| < 2]
    holds. *)
Lemma near_origin_inside z :
  withinf (re z) quarter -> withinf (im z) quarter ->
  (std_abs z <? 2)%float = true.
Proof.
  intros Hre Him. apply Hinside; apply abs_le_quarter; assumption.
Qed.

(** One round keeps the orbit in that square. *)
Lemma near_origin_step z :
  withinf (re z) quarter -> withinf (im z) quarter ->
  withinf (re (cadd (cmul z z) (Complex cr ci))) quarter
  /\ withinf (im (cadd (cmul z z) (Complex cr ci))) quarter.
Proof.
  intros Hre Him. unfold cadd, cmul. cbn [re im].
  destruct quarter_checked as (_ & Hnext & Hsq & Hsum).
  pose proof quarter_lt_INF as Hq. pose proof eighth_lt_INF as He.
  split.
  - apply (within_weaken _ _ _ Hnext).
    apply withinf_add; [exact Hsum|exact He| |exact Hcr].
    apply withinf_sub; [exact Hsq|exact Hsq| |];
      apply withinf_mul; assumption.
  - apply (within_weaken _ _ _ Hnext).
    apply withinf_add; [exact Hsum|exact He| |exact Hci].
    apply withinf_add; [exact Hsq|exact Hsq| |];
      apply withinf_mul; assumption.
Qed.

Lemma mandelbrot_loop_near_origin fuel : forall z count,
  withinf (re z) quarter -> withinf (im z) quarter ->
  count <= m -> m - count <= Z.of_nat fuel ->
  mandelbrot_loop std_abs fuel (Complex cr ci) z count m = m.
Proof.
  induction fuel as [|fuel IH]; intros z count Hre Him Hc Hf.
  - cbn [mandelbrot_loop]. lia.
  - rewrite mandelbrot_loop_unfold, (near_origin_inside z Hre Him).
    cbn [andb]. destruct (count <? m) eqn:Hlt.
    + apply Z.ltb_lt in Hlt.
      destruct (near_origin_step z Hre Him) as [Hre' Him'].
      apply IH; [exact Hre'|exact Him'|lia|lia].
    + apply Z.ltb_ge in Hlt. lia.
Qed.
End NearOrigin.

(** X16: a point of the square [|real| <= 0.125], [|imag| <= 0.125]
    never escapes: for every cap [m >= 0], [mandelbrot] returns [m].
    The whole binary64 orbit stays in the square [|re z| <= 0.25],
    [|im z| <= 0.25]; of [std::abs] this uses that the magnitude of a
    point of that square is below 2. *)
Theorem mandelbrot_near_origin_never_escapes
    (std_abs : complex -> float) (real imag : float) (m : Z) :
  abs_inside std_abs ->
  (abs real <=? 0.125)%float = true ->
  (abs imag <=? 0.125)%float = true ->
  0 <= m ->
  mandelbrot std_abs real imag m = m.
Proof.
  intros Hinside Hre Him Hm. unfold mandelbrot.
  apply mandelbrot_loop_near_origin;
    [exact Hinside|apply abs_le_eighth; exact Hre
    |apply abs_le_eighth; exact Him
    |apply zero_withinf|apply zero_withinf|exact Hm|lia].
Qed.

Lemma mandelbrot_near_origin_never_escapes_witness :
  abs_inside formula_abs
  /\ (abs 0.0625 <=? 0.125)%float = true
  /\ (abs (-0.125) <=? 0.125)%float = true
  /\ 0 <= 1000
  /\ mandelbrot formula_abs 0.0625 (-0.125) 1000 = 1000.
Proof.
  split; [exact formula_abs_inside|].
  split; [reflexivity|]. split; [reflexivity|]. split; [lia|].
  apply mandelbrot_near_origin_never_escapes;
    [exact formula_abs_inside|reflexivity|reflexivity|lia].
Defined.

(** The columns 500 to 566 and the rows 367 to 433 sample the square
    [|re c| <= 0.125], [|im c| <= 0.125]. *)
Lemma central_block_coordinates x y :
  500 <= x <= 566 -> 367 <= y <= 433 ->
  (abs (pixel_real x) <=? 0.125)%float = true
  /\ (abs (pixel_imag y) <=? 0.125)%float = true.
Proof.
  intros Hx Hy.
  assert (Hcols : all_below 567 (fun x =>
            (x <? 500) || (abs (pixel_real x) <=? 0.125)%float) = true)
    by (vm_compute; reflexivity).
  assert (Hrows : all_below 434 (fun y =>
            (y <? 367) || (abs (pixel_imag y) <=? 0.125)%float) = true)
    by (vm_compute; reflexivity).
  pose proof (all_below_spec _ _ Hcols x ltac:(lia)) as Hc.
  pose proof (all_below_spec _ _ Hrows y ltac:(lia)) as Hr.
  cbv beta in Hc, Hr.
  apply orb_true_iff in Hc as [Hc|Hc]; [apply Z.ltb_lt in Hc; lia|].
  apply orb_true_iff in Hr as [Hr|Hr]; [apply Z.ltb_lt in Hr; lia|].
  split; assumption.
Qed.

(** X17: the block of 67 by 67 pixels in the columns 500 to 566 and the
    rows 367 to 433 is black in the picture: its sample points lie in the
    square [|re c| <= 0.125], [|im c| <= 0.125], their count is the cap
    1000, and the buffer the raster loop leaves holds [(0, 0, 0)] at
    their offsets.  Of [std::abs] this uses that the magnitude of a point
    with both coordinates at most 0.25 is below 2. *)
Theorem central_block_black (std_abs : complex -> float) :
  abs_inside std_abs ->
  exists image : list uchar,
    raster std_abs (vector_new (800 * 800 * 3)) = Some image
    /\ forall x y, 500 <= x <= 566 -> 367 <= y <= 433 ->
         mandelbrot std_abs (pixel_real x) (pixel_imag y) 1000 = 1000
         /\ image !! Z.to_nat ((y * 800 + x) * 3) = Some 0
         /\ image !! Z.to_nat ((y * 800 + x) * 3 + 1) = Some 0
         /\ image !! Z.to_nat ((y * 800 + x) * 3 + 2) = Some 0.
Proof.
  intros Hinside.
  destruct (raster_spec std_abs (vector_new (width * height * 3)))
    as (image & Hraster & _ & Hdone).
  { apply vector_new_length. unfold buffer_size, width, height. lia. }
  exists image. split; [exact Hraster|].
  intros x y Hx Hy.
  destruct (central_block_coordinates x y Hx Hy) as [Hre Him].
  assert (Hcount :
            mandelbrot std_abs (pixel_real x) (pixel_imag y) 1000 = 1000).
  { unfold mandelbrot.
    apply mandelbrot_loop_near_origin;
      [exact Hinside|apply abs_le_eighth; exact Hre
      |apply abs_le_eighth; exact Him
      |apply zero_withinf|apply zero_withinf|lia|lia]. }
  split; [exact Hcount|].
  specialize (Hdone x y ltac:(unfold width; lia) ltac:(unfold height; lia)
                ltac:(unfold width; lia)).
  unfold pixel_stored in Hdone.
  rewrite pixel_color_coordinates, Hcount in Hdone.
  change (getColor 1000 1000) with (0, 0, 0) in Hdone.
  exact Hdone.
Qed.

Lemma central_block_black_witness :
  abs_inside formula_abs
  /\ exists image : list uchar,
       raster formula_abs (vector_new (800 * 800 * 3)) = Some image
       /\ image !! Z.to_nat ((400 * 800 + 533) * 3) = Some 0
       /\ image !! Z.to_nat ((400 * 800 + 533) * 3 + 1) = Some 0
       /\ image !! Z.to_nat ((400 * 800 + 533) * 3 + 2) = Some 0.
Proof.
  split; [exact formula_abs_inside|].
  destruct (central_block_black formula_abs formula_abs_inside)
    as (image & Hraster & Hblock).
  exists image. split; [exact Hraster|].
  destruct (Hblock 533 400 ltac:(lia) ltac:(lia)) as (_ & H0 & H1 & H2).
  auto.
Defined.

